(** * Quest event dispatch: a shallow embedding of
      [server/internal/quest/quest-manager.go]

    The Go package keeps, per zone instance, a two-level map from script
    identifiers to event kinds to handlers ([ZoneQuestInterface.Handlers]),
    mutated by [Register] and [Unregister] and read by [Invoke].  Event
    records ([QuestEvent]) are heap objects passed by pointer and filled in
    with chained setters.

    The embedding is a state-and-panic monad [Go] over
    - the receiver [ZoneQuestInterface],
    - a heap of [QuestEvent] records addressed by pointers, and
    - the zone state that handlers reach through their closures,
    which also records, as a trace, every call to the registry mutex and
    every handler call. *)

From stdpp Require Import gmap strings list fin_maps pretty.

(** ** Go runtime values *)

(** Address of a heap object.  A [*QuestEvent] is such an address; the nil
    pointer is an address at which the heap holds nothing, so that every
    dereference of it panics. *)
Definition ptr := positive.

(** Identity of an object owned by another package ([entity.Moblike]
    values, [*[]items.ItemInstance], [ZoneAccess], ...).  The quest package
    stores and forwards such references and never looks inside;
    [None : option ObjRef] is the nil interface value or nil pointer. *)
Definition ObjRef := positive.

(** What a panic carries. *)
Inductive PanicValue :=
  | PanicString (msg : string)        (* panic(fmt.Sprintf(...)) *)
  | IndexOutOfRange (idx len : nat)   (* runtime error: index out of range [idx] with length len *)
  | NilDereference                    (* runtime error: invalid memory address or nil pointer dereference *)
  | NilMapAssign.                     (* assignment to entry in nil map *)

(** A call either returns or panics. *)
Inductive Outcome (A : Type) :=
  | Returns (a : A)
  | Panics (v : PanicValue).
Arguments Returns {A} a.
Arguments Panics {A} v.

(** *** Maps

    A Go map value is nil or a reference to a table.  Reading a nil map
    behaves like reading an empty one, [delete] on it does nothing, and
    assigning into it panics.  Tables are kept by value: the package never
    stores one table under two keys. *)
Abbreviation GoMap K V := (option (gmap K V)) (only parsing).

Section go_map.
Context {K : Type} `{Countable K} {V : Type}.

(** [make(map[K]V)] *)
Definition map_make : GoMap K V := Some ∅.

(** [m == nil] *)
Definition map_is_nil (m : GoMap K V) : bool :=
  match m with None => true | Some _ => false end.

(** [v, ok := m[k]] *)
Definition map_index (m : GoMap K V) (k : K) : option V :=
  match m with
  | None => None
  | Some t => t !! k
  end.

(** [m[k] = v]; [None] is the panic of an assignment into a nil map. *)
Definition map_assign (m : GoMap K V) (k : K) (v : V) : option (GoMap K V) :=
  match m with
  | None => None
  | Some t => Some (Some (<[k := v]> t))
  end.

(** [delete(m, k)] *)
Definition map_delete (m : GoMap K V) (k : K) : GoMap K V :=
  match m with
  | None => None
  | Some t => Some (delete k t)
  end.

(** [len(m)] *)
Definition map_len (m : GoMap K V) : nat :=
  match m with
  | None => 0
  | Some t => size t
  end.
End go_map.

(** *** Slices of strings

    A slice is a window of length [slen] at the start of a backing array;
    its capacity is the length of that array.  Elements of the array past
    [slen] are not part of the slice but stay in memory. *)
Record StringSlice := { backing : list string; slen : nat }.

Definition nil_slice : StringSlice := {| backing := []; slen := 0 |}.

(** The elements [s[0], ..., s[len(s)-1]]. *)
Definition elems (s : StringSlice) : list string := take (slen s) (backing s).

Definition cap (s : StringSlice) : nat := length (backing s).

(** [s[:0]] *)
Definition reslice0 (s : StringSlice) : StringSlice :=
  {| backing := backing s; slen := 0 |}.

Section append.
(** When [append] has to grow the array, the runtime picks the new
    capacity: [growslice_slack c n] is how many zeroed spare cells it
    adds past the [n] needed ones, given the old capacity [c]. *)
Variable growslice_slack : nat → nat → nat.

(** [append(s, vals...)] *)
Definition append (s : StringSlice) (vals : list string) : StringSlice :=
  let n := slen s + length vals in
  if decide (n ≤ cap s)
  then {| backing := elems s ++ vals ++ drop n (backing s); slen := n |}
  else {| backing := elems s ++ vals ++ replicate (growslice_slack (cap s) n) ""%string;
          slen := n |}.
End append.

(** ** The event catalog and the event record *)

(** [type QuestEventType uint16]; the constants are consecutive from 0. *)
Definition QuestEventType := N.

Definition EventSay : QuestEventType := 0%N.
Definition EventTrade : QuestEventType := 1%N.
Definition EventDeath : QuestEventType := 2%N.
Definition EventSpawn : QuestEventType := 3%N.
Definition EventAttack : QuestEventType := 4%N.
Definition EventTimer : QuestEventType := 11%N.
Definition EventSignal : QuestEventType := 12%N.

(** [type QuestEvent struct]; [ExtraData] and [SpellID] are [uint32]. *)
Record QuestEvent := {
  EventType : QuestEventType;
  Actor : option ObjRef;
  Receiver : option ObjRef;
  Item : option ObjRef;
  ZoneData : option ObjRef;
  EncounterName : string;
  ExtraData : N;
  SpellID : N;
  ItemArray : option ObjRef;
  ActorArray : option ObjRef;
  StringArray : StringSlice
}.

(** The composite literal [QuestEvent{}]: every field at its zero value. *)
Definition QuestEvent_zero : QuestEvent := {|
  EventType := 0%N;
  Actor := None;
  Receiver := None;
  Item := None;
  ZoneData := None;
  EncounterName := ""%string;
  ExtraData := 0%N;
  SpellID := 0%N;
  ItemArray := None;
  ActorArray := None;
  StringArray := nil_slice
|}.

Section quest.
(** State of the zone instance that handlers read and write. *)
Variable World : Type.

(** Memory a handler can reach: the event records and the zone. *)
Record Store := { evts : gmap ptr QuestEvent; zone : World }.

(** [type QuestHandler]: a function from [*QuestEvent] to [bool].  A
    handler reads and writes event records and the zone, returns a boolean
    or panics.  The nil function value is the handler that panics with
    [NilDereference].  A handler that calls back into the registry it is
    registered in is not covered. *)
Definition QuestHandler : Type := ptr → Store → Outcome bool * Store.

Definition nil_handler : QuestHandler := λ _ s, (Panics NilDereference, s).

(** [type ZoneQuestInterface struct]; the operations on [Mu] show up in
    the trace. *)
Record ZoneQuestInterface := {
  ZoneAccess : option ObjRef;
  Handlers : GoMap string (GoMap QuestEventType QuestHandler)
}.

(** What a call does besides changing memory. *)
Inductive Effect :=
  | MuLock
  | MuUnlock
  | MuRLock
  | MuRUnlock
  | Call (h : QuestHandler) (evt : ptr).

Record State := { zqi : ZoneQuestInterface; mem : Store }.

Record Result (A : Type) := {
  trace : list Effect;
  out : Outcome A;
  final : State
}.
Arguments trace {A} r.
Arguments out {A} r.
Arguments final {A} r.

Definition Go (A : Type) : Type := State → Result A.

#[global] Instance Go_ret : MRet Go := λ A a st,
  {| trace := []; out := Returns a; final := st |}.

#[global] Instance Go_bind : MBind Go := λ A B k m st,
  let r := m st in
  match out r with
  | Returns a =>
      let r' := k a (final r) in
      {| trace := trace r ++ trace r'; out := out r'; final := final r' |}
  | Panics v => {| trace := trace r; out := Panics v; final := final r |}
  end.

Definition panic {A} (v : PanicValue) : Go A := λ st,
  {| trace := []; out := Panics v; final := st |}.

Definition emit (e : Effect) : Go unit := λ st,
  {| trace := [e]; out := Returns (); final := st |}.

(** [defer d] at the head of a body: [d] runs when the body returns and
    when it panics, and the panic then goes on to the caller. *)
Definition defer {A} (d : Go unit) (body : Go A) : Go A := λ st,
  let r := body st in
  let r' := d (final r) in
  {| trace := trace r ++ trace r';
     out := match out r' with Returns _ => out r | Panics v => Panics v end;
     final := final r' |}.

Definition get_handlers : Go (GoMap string (GoMap QuestEventType QuestHandler)) := λ st,
  {| trace := []; out := Returns (Handlers (zqi st)); final := st |}.

Definition set_handlers (H : GoMap string (GoMap QuestEventType QuestHandler)) : Go unit := λ st,
  {| trace := []; out := Returns ();
     final := {| zqi := {| ZoneAccess := ZoneAccess (zqi st); Handlers := H |};
                 mem := mem st |} |}.

(** [*e] as a value *)
Definition load (e : ptr) : Go QuestEvent := λ st,
  match evts (mem st) !! e with
  | Some r => {| trace := []; out := Returns r; final := st |}
  | None => {| trace := []; out := Panics NilDereference; final := st |}
  end.

(** [*e = r] *)
Definition store (e : ptr) (r : QuestEvent) : Go unit := λ st,
  match evts (mem st) !! e with
  | Some _ =>
      {| trace := []; out := Returns ();
         final := {| zqi := zqi st;
                     mem := {| evts := <[e := r]> (evts (mem st)); zone := zone (mem st) |} |} |}
  | None => {| trace := []; out := Panics NilDereference; final := st |}
  end.

(** [handler(evt)] *)
Definition call (handler : QuestHandler) (evt : ptr) : Go bool := λ st,
  let '(o, m) := handler evt (mem st) in
  {| trace := [Call handler evt]; out := o; final := {| zqi := zqi st; mem := m |} |}.

(** ** The handler registry *)

(** [func (z *ZoneQuestInterface) SetZoneAccess(za ZoneAccess)] *)
Definition SetZoneAccess (za : option ObjRef) : Go unit := λ st,
  {| trace := []; out := Returns ();
     final := {| zqi := {| ZoneAccess := za; Handlers := Handlers (zqi st) |};
                 mem := mem st |} |}.

(** A value of type [any], as far as [Register] tells them apart: the nil
    interface, a [QuestEventType], a [QuestHandler], a function of the
    unnamed type with the handler's signature, or a value of some other
    dynamic type. *)
Inductive any :=
  | AnyNil
  | AnyQuestEventType (t : QuestEventType)
  | AnyQuestHandler (h : QuestHandler)
  | AnyFunc (f : ptr → Store → Outcome bool * Store)
  | AnyOther (dynamic_type : string).

(** [z.Handlers[name][event] = handler] *)
Definition assign_handler (name : string) (event : QuestEventType)
    (handler : QuestHandler) : Go unit :=
  H ← get_handlers;
  match map_assign (default None (map_index H name)) event handler with
  | Some inner =>
      match map_assign H name inner with
      | Some H' => set_handlers H'
      | None => panic NilMapAssign
      end
  | None => panic NilMapAssign
  end.

(** The loop of [Register], entered at index [i] with [rest] the
    arguments [events[i:]] still to be read; [n] is [len(events)]. *)
Fixpoint Register_loop (name : string) (n i : nat) (rest : list any) : Go unit :=
  match rest with
  | [] => mret ()
  | AnyQuestEventType event :: rest1 =>
      match rest1 with
      | [] => panic (IndexOutOfRange (i + 1) n)
      | AnyQuestHandler handler :: rest2 =>
          assign_handler name event handler;;
          Register_loop name n (i + 2) rest2
      | AnyFunc handler :: rest2 =>
          assign_handler name event handler;;
          Register_loop name n (i + 2) rest2
      | _ :: _ =>
          panic (PanicString ("arg " +:+ pretty (i + 1) +:+ " is not a valid QuestHandler"))
      end
  | _ :: _ => panic (PanicString ("arg " +:+ pretty i +:+ " is not QuestEventType"))
  end.

(** [func (z *ZoneQuestInterface) Register(name string, events ...any)] *)
Definition Register (name : string) (events : list any) : Go unit :=
  emit MuLock;;
  defer (emit MuUnlock) (
    H ← get_handlers;
    (if map_is_nil H then set_handlers map_make else mret ());;
    H ← get_handlers;
    (if map_is_nil (default None (map_index H name))
     then match map_assign H name map_make with
          | Some H' => set_handlers H'
          | None => panic NilMapAssign
          end
     else mret ());;
    Register_loop name (length events) 0 events).

(** [delete(z.Handlers[name], event)] *)
Definition delete_handler (name : string) (event : QuestEventType) : Go unit :=
  H ← get_handlers;
  match map_index H name with
  | Some inner =>
      match map_assign H name (map_delete inner event) with
      | Some H' => set_handlers H'
      | None => mret ()
      end
  | None => mret ()
  end.

(** [for _, event := range events { delete(z.Handlers[name], event) }] *)
Fixpoint Unregister_loop (name : string) (events : list QuestEventType) : Go unit :=
  match events with
  | [] => mret ()
  | event :: events' => delete_handler name event;; Unregister_loop name events'
  end.

(** [func (z *ZoneQuestInterface) Unregister(name string, events ...QuestEventType)] *)
Definition Unregister (name : string) (events : list QuestEventType) : Go unit :=
  emit MuLock;;
  defer (emit MuUnlock) (
    H ← get_handlers;
    if map_is_nil H || map_is_nil (default None (map_index H name))
    then mret ()
    else if decide (length events = 0)
    then set_handlers (map_delete H name)
    else
      Unregister_loop name events;;
      H ← get_handlers;
      if decide (map_len (default None (map_index H name)) = 0)
      then set_handlers (map_delete H name)
      else mret ()).

(** [func (z *ZoneQuestInterface) Invoke(name string, evt *QuestEvent) bool] *)
Definition Invoke (name : string) (evt : ptr) : Go bool :=
  H ← get_handlers;
  match map_index H name with
  | Some handlers =>
      e ← load evt;
      match map_index handlers (EventType e) with
      | Some handler => call handler evt
      | None => mret false
      end
  | None => mret false
  end.

(** ** Building event records *)

(** Stores to one field of a record. *)
Definition with_EventType (t : QuestEventType) (r : QuestEvent) : QuestEvent :=
  {| EventType := t; Actor := Actor r; Receiver := Receiver r; Item := Item r;
     ZoneData := ZoneData r; EncounterName := EncounterName r;
     ExtraData := ExtraData r; SpellID := SpellID r; ItemArray := ItemArray r;
     ActorArray := ActorArray r; StringArray := StringArray r |}.

Definition with_Actor (a : option ObjRef) (r : QuestEvent) : QuestEvent :=
  {| EventType := EventType r; Actor := a; Receiver := Receiver r; Item := Item r;
     ZoneData := ZoneData r; EncounterName := EncounterName r;
     ExtraData := ExtraData r; SpellID := SpellID r; ItemArray := ItemArray r;
     ActorArray := ActorArray r; StringArray := StringArray r |}.

Definition with_Receiver (a : option ObjRef) (r : QuestEvent) : QuestEvent :=
  {| EventType := EventType r; Actor := Actor r; Receiver := a; Item := Item r;
     ZoneData := ZoneData r; EncounterName := EncounterName r;
     ExtraData := ExtraData r; SpellID := SpellID r; ItemArray := ItemArray r;
     ActorArray := ActorArray r; StringArray := StringArray r |}.

Definition with_EncounterName (name : string) (r : QuestEvent) : QuestEvent :=
  {| EventType := EventType r; Actor := Actor r; Receiver := Receiver r; Item := Item r;
     ZoneData := ZoneData r; EncounterName := name;
     ExtraData := ExtraData r; SpellID := SpellID r; ItemArray := ItemArray r;
     ActorArray := ActorArray r; StringArray := StringArray r |}.

Definition with_ExtraData (d : N) (r : QuestEvent) : QuestEvent :=
  {| EventType := EventType r; Actor := Actor r; Receiver := Receiver r; Item := Item r;
     ZoneData := ZoneData r; EncounterName := EncounterName r;
     ExtraData := d; SpellID := SpellID r; ItemArray := ItemArray r;
     ActorArray := ActorArray r; StringArray := StringArray r |}.

Definition with_SpellID (id : N) (r : QuestEvent) : QuestEvent :=
  {| EventType := EventType r; Actor := Actor r; Receiver := Receiver r; Item := Item r;
     ZoneData := ZoneData r; EncounterName := EncounterName r;
     ExtraData := ExtraData r; SpellID := id; ItemArray := ItemArray r;
     ActorArray := ActorArray r; StringArray := StringArray r |}.

Definition with_StringArray (s : StringSlice) (r : QuestEvent) : QuestEvent :=
  {| EventType := EventType r; Actor := Actor r; Receiver := Receiver r; Item := Item r;
     ZoneData := ZoneData r; EncounterName := EncounterName r;
     ExtraData := ExtraData r; SpellID := SpellID r; ItemArray := ItemArray r;
     ActorArray := ActorArray r; StringArray := s |}.

(** [e.f = v] for the field that [upd] writes. *)
Definition store_field (e : ptr) (upd : QuestEvent → QuestEvent) : Go unit :=
  r ← load e; store e (upd r).

(** [func (e *QuestEvent) Reset() *QuestEvent] *)
Definition Reset (e : ptr) : Go ptr :=
  store e QuestEvent_zero;;
  mret e.

(** [func (e *QuestEvent) Type(t QuestEventType) *QuestEvent] *)
Definition Type_ (e : ptr) (t : QuestEventType) : Go ptr :=
  store_field e (with_EventType t);;
  mret e.

(** [func (e *QuestEvent) SetActor(a entity.Moblike) *QuestEvent] *)
Definition SetActor (e : ptr) (a : option ObjRef) : Go ptr :=
  store_field e (with_Actor a);;
  mret e.

(** [func (e *QuestEvent) SetReceiver(r entity.Moblike) *QuestEvent] *)
Definition SetReceiver (e : ptr) (r : option ObjRef) : Go ptr :=
  store_field e (with_Receiver r);;
  mret e.

(** [func (e *QuestEvent) Spell(id uint32) *QuestEvent] *)
Definition Spell (e : ptr) (id : N) : Go ptr :=
  store_field e (with_SpellID id);;
  mret e.

(** [func (e *QuestEvent) Extra(d uint32) *QuestEvent] *)
Definition Extra (e : ptr) (d : N) : Go ptr :=
  store_field e (with_ExtraData d);;
  mret e.

(** [func (e *QuestEvent) Encounter(name string) *QuestEvent] *)
Definition Encounter (e : ptr) (name : string) : Go ptr :=
  store_field e (with_EncounterName name);;
  mret e.

Variable growslice_slack : nat → nat → nat.

(** [func (e *QuestEvent) Strings(vals ...string) *QuestEvent] *)
Definition Strings (e : ptr) (vals : list string) : Go ptr :=
  r ← load e;
  store e (with_StringArray (reslice0 (StringArray r)) r);;
  r ← load e;
  store e (with_StringArray (append growslice_slack (StringArray r) vals) r);;
  mret e.

(** ** Callers *)

(** One call of the simulation into the registry. *)
Inductive Op :=
  | OpRegister (name : string) (events : list any)
  | OpUnregister (name : string) (events : list QuestEventType)
  | OpInvoke (name : string) (evt : ptr).

(** The state a call leaves behind, whether it returned or panicked. *)
Definition exec (o : Op) (st : State) : State :=
  match o with
  | OpRegister name events => final (Register name events st)
  | OpUnregister name events => final (Unregister name events st)
  | OpInvoke name evt => final (Invoke name evt st)
  end.

Definition run (ops : list Op) (st : State) : State :=
  foldl (λ s o, exec o s) st ops.

(** ** Vocabulary of the properties *)

(** The handler registered for a script id and an event kind. *)
Definition handler_of (z : ZoneQuestInterface) (name : string)
    (kind : QuestEventType) : option QuestHandler :=
  match map_index (Handlers z) name with
  | Some inner => map_index inner kind
  | None => None
  end.

(** No script id is bound to a table without handlers. *)
Definition no_empty_residue (z : ZoneQuestInterface) : Prop :=
  ∀ name inner, map_index (Handlers z) name = Some inner → map_len inner ≠ 0.

(** The registry holds no script id. *)
Definition registry_empty (z : ZoneQuestInterface) : Prop :=
  map_len (Handlers z) = 0.

(** The script-id table of the registry, a nil map read as an empty
    one. *)
Definition outer_table (z : ZoneQuestInterface) : gmap string (GoMap QuestEventType QuestHandler) :=
  default ∅ (Handlers z).

(** The kind table of a script id, a missing or nil one read as empty. *)
Definition inner_table (z : ZoneQuestInterface) (name : string) : gmap QuestEventType QuestHandler :=
  default ∅ (default None (outer_table z !! name)).

(** A table after the kinds have been deleted from it in order. *)
Definition remove_kinds (events : list QuestEventType)
    (t : gmap QuestEventType QuestHandler) : gmap QuestEventType QuestHandler :=
  foldl (λ t k, delete k t) t events.

(** The handler a [Register] argument stands for, if it is one. *)
Definition as_handler (a : any) : option QuestHandler :=
  match a with
  | AnyQuestHandler h => Some h
  | AnyFunc f => Some f
  | _ => None
  end.

Definition is_kind (a : any) : bool :=
  match a with AnyQuestEventType _ => true | _ => false end.

(** Every argument has the type its position asks for: kinds and
    handlers alternate, [expect_kind] telling which one comes first. *)
Fixpoint well_typed (expect_kind : bool) (events : list any) : bool :=
  match events with
  | [] => true
  | a :: rest =>
      (if expect_kind then is_kind a else bool_decide (is_Some (as_handler a)))
      && well_typed (negb expect_kind) rest
  end.

(** A malformed argument sequence: odd length, or an element that is not
    of the type expected at its position. *)
Definition malformed (events : list any) : bool :=
  Nat.odd (length events) || negb (well_typed true events).

(** The kind/handler pairs in front of the first malformed position. *)
Fixpoint leading_pairs (events : list any) : list (QuestEventType * QuestHandler) :=
  match events with
  | AnyQuestEventType k :: b :: rest =>
      match as_handler b with
      | Some h => (k, h) :: leading_pairs rest
      | None => []
      end
  | _ => []
  end.

(** A table after the pairs have been assigned into it in order. *)
Definition install (pairs : list (QuestEventType * QuestHandler))
    (t : gmap QuestEventType QuestHandler) : gmap QuestEventType QuestHandler :=
  foldl (λ t p, <[p.1 := p.2]> t) t pairs.

(** The arguments open with a kind followed by a handler. *)
Definition starts_with_pair (events : list any) : bool :=
  match events with
  | AnyQuestEventType _ :: b :: _ => bool_decide (is_Some (as_handler b))
  | _ => false
  end.

(** The call is not a [Register] that installs no handler for a script
    id that is not a key of the registry when the call is made. *)
Definition installs_or_known (o : Op) (st : State) : bool :=
  match o with
  | OpRegister name events =>
      starts_with_pair events
      || bool_decide (is_Some (map_index (Handlers (zqi st)) name))
  | _ => true
  end.

(** No call of the sequence, made in the state its predecessors leave,
    is such a [Register]. *)
Fixpoint no_bare_register (ops : list Op) (st : State) : bool :=
  match ops with
  | [] => true
  | o :: ops' => installs_or_known o st && no_bare_register ops' (exec o st)
  end.

(** The kind [k] occurs among the arguments. *)
Definition names_kind (k : QuestEventType) (a : any) : bool :=
  match a with
  | AnyQuestEventType t => bool_decide (t = k)
  | _ => false
  end.

(** The call may change which handler the pair [(s, k)] has. *)
Definition touches (s : string) (k : QuestEventType) (o : Op) : bool :=
  match o with
  | OpRegister name events =>
      bool_decide (name = s) && existsb (names_kind k) events
  | OpUnregister name events =>
      bool_decide (name = s) && (bool_decide (events = []) || bool_decide (k ∈ events))
  | OpInvoke _ _ => false
  end.

(** The handler that the last pair naming [k] carries, if a pair names
    [k]. *)
Fixpoint last_binding (k : QuestEventType)
    (pairs : list (QuestEventType * QuestHandler)) : option QuestHandler :=
  match pairs with
  | [] => None
  | (k', h) :: rest =>
      match last_binding k rest with
      | Some h' => Some h'
      | None => if decide (k' = k) then Some h else None
      end
  end.

(** The reset-then-populate chain
    [e.Reset().Type(t).SetActor(a).SetReceiver(r).Spell(id).Extra(d).Encounter(name).Strings(vals...)]. *)
Definition reset_and_populate (e : ptr) (t : QuestEventType)
    (a r : option ObjRef) (id d : N) (name : string) (vals : list string) : Go ptr :=
  p ← Reset e;
  p ← Type_ p t;
  p ← SetActor p a;
  p ← SetReceiver p r;
  p ← Spell p id;
  p ← Extra p d;
  p ← Encounter p name;
  Strings p vals.

(** The call is a [Register] or an [Unregister]. *)
Definition is_registry_call (o : Op) : bool :=
  match o with
  | OpInvoke _ _ => false
  | _ => true
  end.

(** The state with the record at [e] replaced by [r]. *)
Definition set_record (e : ptr) (r : QuestEvent) (st : State) : State :=
  {| zqi := zqi st;
     mem := {| evts := <[e := r]> (evts (mem st)); zone := zone (mem st) |} |}.

(** The fields of [QuestEvent]. *)
Inductive Field :=
  | FEventType | FActor | FReceiver | FItem | FZoneData | FEncounterName
  | FExtraData | FSpellID | FItemArray | FActorArray | FStringArray.

(** Two records hold the same value in a field. *)
Definition agree_on (f : Field) (r r' : QuestEvent) : Prop :=
  match f with
  | FEventType => EventType r' = EventType r
  | FActor => Actor r' = Actor r
  | FReceiver => Receiver r' = Receiver r
  | FItem => Item r' = Item r
  | FZoneData => ZoneData r' = ZoneData r
  | FEncounterName => EncounterName r' = EncounterName r
  | FExtraData => ExtraData r' = ExtraData r
  | FSpellID => SpellID r' = SpellID r
  | FItemArray => ItemArray r' = ItemArray r
  | FActorArray => ActorArray r' = ActorArray r
  | FStringArray => StringArray r' = StringArray r
  end.

(** A method call on the record at [e], holding [r] before, that returns
    [e] itself, leaves [r'] there, differs from [r] in the field [f] at
    most, and touches nothing else: no other record, not the zone, not
    the registry, and no effect in the trace. *)
Definition writes_only (f : Field) (e : ptr) (r r' : QuestEvent)
    (st : State) (res : Result ptr) : Prop :=
  trace res = [] ∧ out res = Returns e ∧
  zqi (final res) = zqi st ∧
  zone (mem (final res)) = zone (mem st) ∧
  evts (mem (final res)) = <[e := r']> (evts (mem st)) ∧
  ∀ g, g ≠ f → agree_on g r r'.

End quest.


Arguments Build_Store {World} evts zone.
Arguments evts {World} s.
Arguments zone {World} s.
Arguments nil_handler {World} _ _.
Arguments Build_ZoneQuestInterface {World} ZoneAccess Handlers.
Arguments ZoneAccess {World} z.
Arguments Handlers {World} z.
Arguments MuLock {World}.
Arguments MuUnlock {World}.
Arguments MuRLock {World}.
Arguments MuRUnlock {World}.
Arguments Call {World} h evt.
Arguments Build_State {World} zqi mem.
Arguments zqi {World} s.
Arguments mem {World} s.
Arguments Build_Result {World A} trace out final.
Arguments trace {World A} r.
Arguments out {World A} r.
Arguments final {World A} r.
Arguments panic {World A} v _.
Arguments emit {World} e _.
Arguments defer {World A} d body _.
Arguments get_handlers {World} _.
Arguments set_handlers {World} H _.
Arguments load {World} e _.
Arguments store {World} e r _.
Arguments call {World} handler evt _.
Arguments SetZoneAccess {World} za _.
Arguments AnyNil {World}.
Arguments AnyQuestEventType {World} t.
Arguments AnyQuestHandler {World} h.
Arguments AnyFunc {World} f.
Arguments AnyOther {World} dynamic_type.
Arguments assign_handler {World} name event handler _.
Arguments Register_loop {World} name n i rest _.
Arguments Register {World} name events _.
Arguments delete_handler {World} name event _.
Arguments Unregister_loop {World} name events _.
Arguments Unregister {World} name events _.
Arguments Invoke {World} name evt _.
Arguments store_field {World} e upd _.
Arguments Reset {World} e _.
Arguments Type_ {World} e t _.
Arguments SetActor {World} e a _.
Arguments SetReceiver {World} e r _.
Arguments Spell {World} e id _.
Arguments Extra {World} e d _.
Arguments Encounter {World} e name _.
Arguments Strings {World} growslice_slack e vals _.
Arguments OpRegister {World} name events.
Arguments OpUnregister {World} name events.
Arguments OpInvoke {World} name evt.
Arguments exec {World} o st.
Arguments run {World} ops st.
Arguments handler_of {World} z name kind.
Arguments no_empty_residue {World} z.
Arguments registry_empty {World} z.
Arguments as_handler {World} a.
Arguments is_kind {World} a.
Arguments well_typed {World} expect_kind events.
Arguments malformed {World} events.
Arguments leading_pairs {World} events.
Arguments install {World} pairs t.
Arguments remove_kinds {World} events t.
Arguments outer_table {World} z.
Arguments inner_table {World} z name.
Arguments names_kind {World} k a.
Arguments starts_with_pair {World} events.
Arguments installs_or_known {World} o st.
Arguments no_bare_register {World} ops st.
Arguments touches {World} s k o.
Arguments last_binding {World} k pairs.
Arguments is_registry_call {World} o.
Arguments set_record {World} e r st.
Arguments reset_and_populate {World} growslice_slack e t a r id d name vals _.
Arguments writes_only {World} f e r r' st res.

(** ** Sample handlers, records and states

    The zone of the samples is a counter that a handler may bump. *)

Definition sample_sets_flag : QuestHandler nat :=
  λ _ s, (Returns true, {| evts := evts s; zone := S (zone s) |}).

Definition sample_declines : QuestHandler nat :=
  λ _ s, (Returns false, s).

Definition sample_faulty : QuestHandler nat :=
  λ _ s, (Panics (PanicString "script fault"), s).

(** A record that has been populated for a death event. *)
Definition sample_event : QuestEvent := {|
  EventType := EventDeath;
  Actor := Some 7%positive;
  Receiver := Some 8%positive;
  Item := None;
  ZoneData := None;
  EncounterName := "crypt"%string;
  ExtraData := 40%N;
  SpellID := 1234%N;
  ItemArray := None;
  ActorArray := None;
  StringArray := {| backing := ["hail"; "rat"; "old"]%string; slen := 2 |}
|}.

Definition sample_store : Store nat :=
  {| evts := {[ 1%positive := sample_event ]}; zone := 0 |}.

(** The zero value [ZoneQuestInterface{}] next to [sample_store]. *)
Definition sample_fresh : State nat :=
  {| zqi := {| ZoneAccess := None; Handlers := None |}; mem := sample_store |}.

(** [sample_fresh] after [Register("rat1", EventDeath, sample_sets_flag)]. *)
Definition sample_rat1 : State nat :=
  final (Register "rat1" [AnyQuestEventType EventDeath; AnyQuestHandler sample_sets_flag]
           sample_fresh).

(** [sample_fresh] after [Register("rat1", EventDeath, sample_faulty)]. *)
Definition sample_faulty_rat1 : State nat :=
  final (Register "rat1" [AnyQuestEventType EventDeath; AnyQuestHandler sample_faulty]
           sample_fresh).

(** A runtime that doubles the needed capacity when it grows a slice. *)
Definition sample_slack : nat → nat → nat := λ _ n, n.

(** Calls that leave the pair ("goblin", EventSay) alone. *)
Definition sample_other_calls : list (Op nat) :=
  [ OpInvoke "goblin" 1%positive;
    OpRegister "goblin" [AnyQuestEventType EventDeath; AnyQuestHandler sample_faulty];
    OpUnregister "goblin" [EventDeath];
    OpUnregister "rat1" [] ].

(** [sample_rat1] with a second kind registered for "rat1". *)
Definition sample_rat1_two_kinds : State nat :=
  final (Register "rat1" [AnyQuestEventType EventSay; AnyQuestHandler sample_declines]
           sample_rat1).

(** A registry in which "rat1" handles two kinds and "bat" one. *)
Definition sample_zone_loaded : State nat :=
  final (Register "bat" [AnyQuestEventType EventSpawn; AnyFunc sample_sets_flag]
           sample_rat1_two_kinds).

(** A reload of "rat1": only calls that write the registry. *)
Definition sample_reload : list (Op nat) :=
  [ OpUnregister "rat1" [];
    OpRegister "rat1" [AnyQuestEventType EventDeath; AnyFunc sample_declines];
    OpRegister "bat" [AnyQuestEventType EventSpawn];
    OpUnregister "bat" [EventSpawn; EventSay] ].

(** A script loads, registers again without pairs, is invoked and is
    unloaded kind by kind. *)
Definition sample_session_with_bare_register : list (Op nat) :=
  [ OpRegister "rat1" [AnyQuestEventType EventDeath; AnyQuestHandler sample_sets_flag];
    OpRegister "rat1" [];
    OpRegister "rat1" [AnyNil];
    OpInvoke "rat1" 1%positive;
    OpUnregister "rat1" [EventSay];
    OpUnregister "rat1" [EventDeath] ].

(** * Properties *)

Section go_map_facts.
Context {K : Type} `{Countable K} {V : Type}.
Implicit Types (m : GoMap K V) (t : gmap K V).

Lemma map_len_zero_index m k : map_len m = 0 → map_index m k = None.
Proof.
  destruct m as [t|]; [|done]. simpl. intros Hsz.
  apply map_size_empty_iff in Hsz. subst t. apply lookup_empty.
Qed.
End go_map_facts.

Section invoke_facts.
Context {World : Type}.
Implicit Types (st : State World) (h : QuestHandler World) (e : QuestEvent).

(** [Invoke] when the pair has a handler. *)
Lemma Invoke_found st name evt e h :
  evts (mem st) !! evt = Some e →
  handler_of (zqi st) name (EventType e) = Some h →
  Invoke name evt st =
    {| trace := [Call h evt];
       out := (h evt (mem st)).1;
       final := {| zqi := zqi st; mem := (h evt (mem st)).2 |} |}.
Proof.
  intros He Hh. unfold handler_of in Hh.
  unfold Invoke, mbind, Go_bind, get_handlers, load, call. simpl.
  destruct (map_index (Handlers (zqi st)) name) as [inner|]; [|done].
  simpl. rewrite He. simpl. rewrite Hh. simpl.
  by destruct (h evt (mem st)).
Qed.

(** [Invoke] when the script id is not a key of the registry. *)
Lemma Invoke_unknown_script st name evt :
  map_index (Handlers (zqi st)) name = None →
  Invoke name evt st = {| trace := []; out := Returns false; final := st |}.
Proof.
  intros Hn. unfold Invoke, mbind, Go_bind, get_handlers. simpl.
  by rewrite Hn.
Qed.

(** [Invoke] when the record's kind has no handler under the script id. *)
Lemma Invoke_unknown_kind st name evt e :
  evts (mem st) !! evt = Some e →
  handler_of (zqi st) name (EventType e) = None →
  Invoke name evt st = {| trace := []; out := Returns false; final := st |}.
Proof.
  intros He Hh. unfold handler_of in Hh.
  unfold Invoke, mbind, Go_bind, get_handlers, load. simpl.
  destruct (map_index (Handlers (zqi st)) name) as [inner|]; [|done].
  simpl. rewrite He. simpl. by rewrite Hh.
Qed.

(** [Invoke] never writes to the receiver. *)
Lemma Invoke_zqi st name evt : zqi (final (Invoke name evt st)) = zqi st.
Proof.
  unfold Invoke, mbind, Go_bind, get_handlers, load, call. simpl.
  destruct (map_index (Handlers (zqi st)) name) as [inner|]; [|done].
  simpl. destruct (evts (mem st) !! evt) as [e|]; [|done].
  simpl. destruct (map_index inner (EventType e)) as [h|]; [|done].
  simpl. by destruct (h evt (mem st)).
Qed.

(** Whatever [Invoke] leaves in its trace is one call of a handler on the
    record it was given. *)
Lemma Invoke_trace st name evt ef :
  ef ∈ trace (Invoke name evt st) → ∃ h, ef = Call h evt.
Proof.
  unfold Invoke, mbind, Go_bind, get_handlers, load, call. simpl.
  destruct (map_index (Handlers (zqi st)) name) as [inner|]; simpl;
    [|by intros ?%elem_of_nil].
  destruct (evts (mem st) !! evt) as [e|]; simpl; [|by intros ?%elem_of_nil].
  destruct (map_index inner (EventType e)) as [h|]; simpl;
    [|by intros ?%elem_of_nil].
  destruct (h evt (mem st)). simpl. intros ->%list_elem_of_singleton. eauto.
Qed.
End invoke_facts.

Section register_facts.
Context {World : Type}.
Implicit Types (st : State World) (h : QuestHandler World).
Implicit Types (T : gmap string (GoMap QuestEventType (QuestHandler World))).
Implicit Types (t : gmap QuestEventType (QuestHandler World)).
Implicit Types (events rest : list (any World)).

(** Lists can be taken apart two elements at a time. *)
Lemma list_pair_ind {A} (P : list A → Prop) :
  P [] → (∀ a, P [a]) → (∀ a b l, P l → P (a :: b :: l)) → ∀ l, P l.
Proof.
  intros Hnil Hone Hstep l.
  cut (P l ∧ ∀ a, P (a :: l)); [tauto|].
  induction l as [|b l [IH1 IH2]]; split; auto.
Qed.

Lemma install_cons k h pairs t :
  install ((k, h) :: pairs) t = install pairs (<[k := h]> t).
Proof. done. Qed.

Lemma install_nonempty pairs t : t ≠ ∅ → install pairs t ≠ ∅.
Proof.
  revert t. induction pairs as [|[k h] pairs IH]; intros t Ht; [done|].
  rewrite install_cons. apply IH, insert_non_empty.
Qed.

Lemma install_lookup_other pairs t k :
  k ∉ pairs.*1 → install pairs t !! k = t !! k.
Proof.
  revert t. induction pairs as [|[k' h] pairs IH]; intros t Hk; [done|].
  rewrite install_cons, IH.
  - apply lookup_insert_ne. intros ->. apply Hk. simpl. left.
  - intros Hin. apply Hk. simpl. by right.
Qed.

Lemma assign_handler_run st name k h T t :
  Handlers (zqi st) = Some T → T !! name = Some (Some t) →
  assign_handler name k h st =
    {| trace := []; out := Returns ();
       final := {| zqi := {| ZoneAccess := ZoneAccess (zqi st);
                             Handlers := Some (<[name := Some (<[k := h]> t)]> T) |};
                   mem := mem st |} |}.
Proof.
  intros HT Hn. unfold assign_handler, mbind, Go_bind, get_handlers. simpl.
  rewrite HT. simpl. rewrite Hn. simpl. done.
Qed.
End register_facts.

Section register_run.
Context {World : Type}.
Implicit Types (st : State World) (h : QuestHandler World).
Implicit Types (T : gmap string (GoMap QuestEventType (QuestHandler World))).
Implicit Types (t : gmap QuestEventType (QuestHandler World)).
Implicit Types (events rest : list (any World)).

Lemma malformed_pair k b rest h :
  as_handler b = Some h →
  malformed (AnyQuestEventType k :: b :: rest) = malformed rest.
Proof.
  intros Hb. unfold malformed. cbn [length well_typed is_kind negb andb].
  rewrite Hb. rewrite bool_decide_true by eauto.
  cbn [andb]. f_equal.
Qed.

Lemma malformed_not_kind a rest :
  is_kind a = false → malformed (a :: rest) = true.
Proof.
  intros Ha. unfold malformed. cbn [well_typed]. rewrite Ha.
  cbn [andb negb]. apply orb_true_r.
Qed.

Lemma malformed_not_handler k b rest :
  as_handler b = None → malformed (AnyQuestEventType k :: b :: rest) = true.
Proof.
  intros Hb. unfold malformed. cbn [well_typed is_kind negb andb].
  rewrite Hb. rewrite bool_decide_false by (intros [? ?]; discriminate).
  apply orb_true_r.
Qed.

(** What the loop of [Register] leaves behind and how it ends. *)
Lemma Register_loop_run name n rest : ∀ i st T t,
  Handlers (zqi st) = Some T → T !! name = Some (Some t) →
  let r := Register_loop name n i rest st in
  trace r = [] ∧
  final r = {| zqi := {| ZoneAccess := ZoneAccess (zqi st);
                         Handlers := Some (<[name := Some (install (leading_pairs rest) t)]> T) |};
               mem := mem st |} ∧
  if malformed rest then ∃ v, out r = Panics v else out r = Returns ().
Proof.
  induction rest as [|a|a b rest IH] using list_pair_ind; intros i st T t HT Hn.
  - simpl. split; [done|]. split; [|done].
    destruct st as [[za Hs] m]. simpl in *. subst Hs.
    by rewrite insert_id.
  - assert (final_same :
      {| zqi := {| ZoneAccess := ZoneAccess (zqi st);
                   Handlers := Some (<[name := Some t]> T) |};
         mem := mem st |} = st).
    { destruct st as [[za Hs] m]. simpl in *. subst Hs. by rewrite insert_id. }
    destruct a; simpl; rewrite ?final_same; repeat split; eauto.
  - assert (final_same :
      {| zqi := {| ZoneAccess := ZoneAccess (zqi st);
                   Handlers := Some (<[name := Some t]> T) |};
         mem := mem st |} = st).
    { destruct st as [[za Hs] m]. simpl in *. subst Hs. by rewrite insert_id. }
    destruct a as [|k|?|?|?];
      try (rewrite malformed_not_kind by done; simpl; rewrite ?final_same;
           repeat split; eauto).
    destruct (as_handler b) as [h|] eqn:Hb.
    + rewrite (malformed_pair _ _ _ _ Hb).
      assert (leading_pairs (AnyQuestEventType k :: b :: rest) = (k, h) :: leading_pairs rest) as ->.
      { simpl. by rewrite Hb. }
      rewrite install_cons.
      assert (Register_loop name n i (AnyQuestEventType k :: b :: rest) st =
              (assign_handler name k h;; Register_loop name n (i + 2) rest) st) as ->.
      { destruct b; simpl in Hb; try discriminate; by simplify_eq. }
      unfold mbind, Go_bind.
      rewrite (assign_handler_run _ _ _ _ _ _ HT Hn). simpl.
      edestruct (IH (i + 2)
        {| zqi := {| ZoneAccess := ZoneAccess (zqi st);
                     Handlers := Some (<[name := Some (<[k := h]> t)]> T) |};
           mem := mem st |} _ (<[k := h]> t) eq_refl) as (Htr & Hfin & Hout).
      { apply lookup_insert_eq. }
      rewrite Htr, Hfin. simpl. rewrite insert_insert_eq.
      split; [done|]. split; [done|].
      destruct (malformed rest); [destruct Hout as [v Hv]; exists v|]; done.
    + rewrite malformed_not_handler by done.
      assert (leading_pairs (AnyQuestEventType k :: b :: rest) = []) as ->.
      { simpl. by rewrite Hb. }
      destruct b; simpl in Hb; try discriminate; simpl; rewrite ?final_same;
        repeat split; eauto.
Qed.
End register_run.

Section register_call.
Context {World : Type}.
Implicit Types (st : State World) (h : QuestHandler World).
Implicit Types (events : list (any World)).

(** [Register] as one step: the lock is taken and released, the script
    id gets a table holding what it held before plus the leading pairs,
    and the call returns exactly when the arguments are well formed. *)
Lemma Register_run name events st :
  let r := Register name events st in
  trace r = [MuLock; MuUnlock] ∧
  final r =
    {| zqi := {| ZoneAccess := ZoneAccess (zqi st);
                 Handlers := Some (<[name := Some (install (leading_pairs events)
                                                     (inner_table (zqi st) name))]>
                                     (outer_table (zqi st))) |};
       mem := mem st |} ∧
  if malformed events then ∃ v, out r = Panics v else out r = Returns ().
Proof.
  intros r. subst r.
  set (T := outer_table (zqi st)).
  set (t := inner_table (zqi st) name).
  set (T' := <[name := Some t]> T).
  set (st1 := {| zqi := {| ZoneAccess := ZoneAccess (zqi st); Handlers := Some T' |};
                 mem := mem st |}).
  destruct (Register_loop_run name (length events) events 0 st1 T' t eq_refl)
    as (Htr & Hfin & Hout); [apply lookup_insert_eq|].
  assert (Hbody :
    Register name events st =
    (emit MuLock;; defer (emit MuUnlock) (Register_loop name (length events) 0 events)) st1).
  { subst st1 T' t T. unfold inner_table, outer_table.
    destruct st as [[za Hs] m].
    unfold Register, defer, mbind, Go_bind. simpl.
    destruct Hs as [T|]; simpl.
    - destruct (T !! name) as [[t|]|] eqn:Hn; simpl; [|done..].
      by rewrite (insert_id T name (Some t)).
    - rewrite lookup_empty. done. }
  rewrite Hbody. clear Hbody.
  unfold defer, mbind, Go_bind. simpl.
  rewrite Htr, Hfin. simpl. subst T'. rewrite insert_insert_eq.
  split; [done|]. split; [done|].
  destruct (malformed events); [destruct Hout as [v Hv]; exists v|]; done.
Qed.
End register_call.

Section unregister_call.
Context {World : Type}.
Implicit Types (st : State World) (h : QuestHandler World).
Implicit Types (T : gmap string (GoMap QuestEventType (QuestHandler World))).
Implicit Types (t : gmap QuestEventType (QuestHandler World)).
Implicit Types (events : list QuestEventType).

Lemma remove_kinds_lookup events t k :
  remove_kinds events t !! k = if decide (k ∈ events) then None else t !! k.
Proof.
  revert t. induction events as [|k' events IH]; intros t.
  - simpl. destruct (decide (k ∈ [])) as [Hin|Hin]; [by apply elem_of_nil in Hin|done].
  - unfold remove_kinds in *. simpl. rewrite IH.
    destruct (decide (k ∈ k' :: events)) as [Hin|Hin];
      destruct (decide (k ∈ events)) as [Hin'|Hin']; try done.
    + apply elem_of_cons in Hin as [->|?]; [|done]. apply lookup_delete_eq.
    + exfalso. apply Hin. by right.
    + apply lookup_delete_ne. intros ->. apply Hin. left.
Qed.

Lemma delete_handler_run st name k T t :
  Handlers (zqi st) = Some T → T !! name = Some (Some t) →
  delete_handler name k st =
    {| trace := []; out := Returns ();
       final := {| zqi := {| ZoneAccess := ZoneAccess (zqi st);
                             Handlers := Some (<[name := Some (delete k t)]> T) |};
                   mem := mem st |} |}.
Proof.
  intros HT Hn. unfold delete_handler, mbind, Go_bind, get_handlers. simpl.
  rewrite HT. simpl. rewrite Hn. simpl. done.
Qed.

Lemma Unregister_loop_run name events : ∀ st T t,
  Handlers (zqi st) = Some T → T !! name = Some (Some t) →
  Unregister_loop name events st =
    {| trace := []; out := Returns ();
       final := {| zqi := {| ZoneAccess := ZoneAccess (zqi st);
                             Handlers := Some (<[name := Some (remove_kinds events t)]> T) |};
                   mem := mem st |} |}.
Proof.
  induction events as [|k events IH]; intros st T t HT Hn.
  - simpl. unfold mret, Go_ret. f_equal.
    destruct st as [[za Hs] m]. simpl in *. subst Hs. by rewrite insert_id.
  - simpl. unfold mbind, Go_bind.
    rewrite (delete_handler_run _ _ _ _ _ HT Hn). simpl.
    erewrite IH; [|done|apply lookup_insert_eq]. simpl.
    by rewrite insert_insert_eq.
Qed.

(** [Unregister] as one step. *)
Lemma Unregister_run name events st :
  let r := Unregister name events st in
  trace r = [MuLock; MuUnlock] ∧ out r = Returns () ∧
  mem (final r) = mem st ∧
  ZoneAccess (zqi (final r)) = ZoneAccess (zqi st) ∧
  Handlers (zqi (final r)) =
    match Handlers (zqi st) with
    | Some T =>
        match T !! name with
        | Some (Some t) =>
            if decide (events = []) then Some (delete name T)
            else if decide (size (remove_kinds events t) = 0) then Some (delete name T)
            else Some (<[name := Some (remove_kinds events t)]> T)
        | _ => Some T
        end
    | None => None
    end.
Proof.
  intros r. subst r. destruct st as [[za Hs] m].
  unfold Unregister, defer, mbind, Go_bind, get_handlers. simpl.
  destruct Hs as [T|]; simpl; [|done].
  destruct (T !! name) as [[t|]|] eqn:Hn; simpl; [|done..].
  destruct events as [|k events]; simpl; [done|].
  pose proof (Unregister_loop_run name (k :: events)
    {| zqi := {| ZoneAccess := za; Handlers := Some T |}; mem := m |} T t eq_refl Hn) as Hl.
  simpl in Hl. rewrite Hl. simpl.
  rewrite lookup_insert_eq. simpl.
  change (foldl (λ t k, delete k t) (delete k t) events) with (remove_kinds (k :: events) t).
  case_decide; simpl; [|done].
  by rewrite delete_insert_eq.
Qed.
End unregister_call.

Section registry_facts.
Context {World : Type}.
Implicit Types (st : State World) (z : ZoneQuestInterface World).
Implicit Types (h : QuestHandler World) (o : Op World).

Lemma outer_table_lookup z (name : string) :
  outer_table z !! name = map_index (Handlers z) name.
Proof.
  unfold outer_table. destruct (Handlers z) as [T|]; simpl; [done|].
  apply lookup_empty.
Qed.

Lemma inner_table_lookup z name k :
  inner_table z name !! k = handler_of z name k.
Proof.
  unfold inner_table, handler_of. rewrite outer_table_lookup.
  destruct (map_index (Handlers z) name) as [[t|]|]; simpl; try done;
    apply lookup_empty.
Qed.

(** The handlers after a [Register], returned or panicked. *)
Lemma Register_handler_of name (events : list (any World)) st name' k :
  handler_of (zqi (final (Register name events st))) name' k =
  if decide (name' = name)
  then install (leading_pairs events) (inner_table (zqi st) name) !! k
  else handler_of (zqi st) name' k.
Proof.
  destruct (Register_run name events st) as (_ & -> & _).
  unfold handler_of at 1. simpl.
  destruct (decide (name' = name)) as [->|Hne].
  - by rewrite lookup_insert_eq.
  - rewrite lookup_insert_ne by done. rewrite outer_table_lookup. done.
Qed.

(** The handlers after an [Unregister]. *)
Lemma Unregister_handler_of name (events : list QuestEventType) st name' k :
  handler_of (zqi (final (Unregister name events st))) name' k =
  if decide (name' = name ∧ (events = [] ∨ k ∈ events))
  then None
  else handler_of (zqi st) name' k.
Proof.
  destruct (Unregister_run name events st) as (_ & _ & _ & _ & HH).
  unfold handler_of. rewrite HH. clear HH.
  destruct (Handlers (zqi st)) as [T|]; simpl; [|by case_decide].
  destruct (decide (name' = name)) as [->|Hne].
  - destruct (T !! name) as [[t|]|] eqn:Hn; simpl; rewrite ?Hn; simpl;
      [|by case_decide..].
    destruct (decide (events = [])) as [->|Hev]; simpl.
    { rewrite lookup_delete_eq. rewrite decide_True; [done|]. by auto. }
    pose proof (remove_kinds_lookup events t k) as Hk.
    destruct (decide (size (remove_kinds events t) = 0)) as [Hsz|Hsz]; simpl.
    + rewrite lookup_delete_eq.
      apply map_size_empty_iff in Hsz. rewrite Hsz, lookup_empty in Hk.
      destruct (decide (k ∈ events)).
      * rewrite decide_True; [done|]. by auto.
      * rewrite decide_False; [done|]. intros [_ [?|?]]; done.
    + rewrite lookup_insert_eq. simpl. rewrite Hk.
      destruct (decide (k ∈ events)).
      * rewrite decide_True; [done|]. by auto.
      * rewrite decide_False; [done|]. intros [_ [?|?]]; done.
  - rewrite decide_False by (intros [? _]; done).
    destruct (T !! name) as [[t|]|] eqn:Hn; simpl; try done.
    destruct (decide (events = [])); simpl.
    { by rewrite lookup_delete_ne. }
    destruct (decide (size (remove_kinds events t) = 0)); simpl.
    + by rewrite lookup_delete_ne.
    + by rewrite lookup_insert_ne.
Qed.

Lemma leading_pairs_kinds (events : list (any World)) k :
  k ∈ (leading_pairs events).*1 → existsb (names_kind k) events = true.
Proof.
  induction events as [|a|a b events IH] using list_pair_ind.
  - by intros ?%elem_of_nil.
  - destruct a; by intros ?%elem_of_nil.
  - destruct a as [|k'|?|?|?]; try by intros ?%elem_of_nil.
    cbn [leading_pairs]. destruct (as_handler b) as [h|] eqn:Hb;
      [|by intros ?%elem_of_nil].
    cbn [fmap list_fmap fst existsb names_kind].
    intros [->|Hin]%elem_of_cons.
    + by rewrite bool_decide_true.
    + rewrite (IH Hin). by rewrite !orb_true_r.
Qed.

(** A call that does not touch a pair leaves its handler alone. *)
Lemma exec_untouched s k o st :
  touches s k o = false →
  handler_of (zqi (exec o st)) s k = handler_of (zqi st) s k.
Proof.
  destruct o as [name events|name events|name evt]; cbn [exec touches]; intros Ht.
  - rewrite Register_handler_of.
    destruct (decide (s = name)) as [->|Hne]; [|done].
    rewrite bool_decide_true in Ht by done. simpl in Ht.
    rewrite install_lookup_other; [apply inner_table_lookup|].
    intros Hin%leading_pairs_kinds. congruence.
  - rewrite Unregister_handler_of.
    destruct (decide (s = name ∧ (events = [] ∨ k ∈ events))) as [[-> Hor]|Hn]; [|done].
    rewrite bool_decide_true in Ht by done. simpl in Ht.
    apply orb_false_iff in Ht as [Ht1 Ht2].
    apply bool_decide_eq_false in Ht1, Ht2. tauto.
  - by rewrite Invoke_zqi.
Qed.

Lemma run_untouched s k (ops : list (Op World)) : ∀ st,
  forallb (λ o, negb (touches s k o)) ops = true →
  handler_of (zqi (run ops st)) s k = handler_of (zqi st) s k.
Proof.
  induction ops as [|o ops IH]; intros st Hops; [done|].
  simpl in Hops. apply andb_true_iff in Hops as [Ho Hops].
  apply negb_true_iff in Ho.
  cbn [run foldl]. unfold run in IH. rewrite IH by done. by apply exec_untouched.
Qed.
End registry_facts.

Section residue_facts.
Context {World : Type}.
Implicit Types (st : State World) (z : ZoneQuestInterface World).
Implicit Types (o : Op World).

Lemma registry_empty_no_residue z : registry_empty z → no_empty_residue z.
Proof.
  intros Hz name inner Hn.
  by rewrite (map_len_zero_index _ name Hz) in Hn.
Qed.

Lemma starts_with_pair_leading (events : list (any World)) :
  starts_with_pair events = true → leading_pairs events ≠ [].
Proof.
  destruct events as [|[|k|?|?|?] [|b events]]; try done.
  simpl. intros [h ->]%bool_decide_eq_true. done.
Qed.

Lemma Register_no_residue name (events : list (any World)) st :
  starts_with_pair events = true →
  no_empty_residue (zqi st) →
  no_empty_residue (zqi (final (Register name events st))).
Proof.
  intros Hp%starts_with_pair_leading Hinv name' inner.
  destruct (Register_run name events st) as (_ & -> & _). simpl.
  destruct (decide (name' = name)) as [->|Hne].
  - rewrite lookup_insert_eq. intros [= <-]. simpl.
    intros Hsz%map_size_empty_iff. revert Hsz.
    destruct (leading_pairs events) as [|[k h] pairs]; [done|].
    rewrite install_cons. apply install_nonempty, insert_non_empty.
  - rewrite lookup_insert_ne by done. rewrite outer_table_lookup. apply Hinv.
Qed.

Lemma Unregister_no_residue name (events : list QuestEventType) st :
  no_empty_residue (zqi st) →
  no_empty_residue (zqi (final (Unregister name events st))).
Proof.
  intros Hinv name' inner.
  destruct (Unregister_run name events st) as (_ & _ & _ & _ & ->).
  specialize (Hinv name' inner). revert Hinv.
  destruct (Handlers (zqi st)) as [T|]; simpl; [|done].
  destruct (T !! name) as [[t|]|] eqn:Hn; try done.
  assert (Hdel : (T !! name' = Some inner → map_len inner ≠ 0) →
                 delete name T !! name' = Some inner → map_len inner ≠ 0).
  { intros Hinv. destruct (decide (name' = name)) as [->|Hne].
    - by rewrite lookup_delete_eq.
    - by rewrite lookup_delete_ne. }
  destruct (decide (events = [])); [done|].
  destruct (decide (size (remove_kinds events t) = 0)) as [|Hsz]; [done|].
  simpl. intros Hinv. destruct (decide (name' = name)) as [->|Hne].
  - rewrite lookup_insert_eq. by intros [= <-].
  - by rewrite lookup_insert_ne.
Qed.

Lemma starts_without_pair_leading (events : list (any World)) :
  starts_with_pair events = false → leading_pairs events = [].
Proof.
  destruct events as [|[|k|?|?|?] [|b events]]; try done.
  simpl. intros Hb%bool_decide_eq_false.
  destruct (as_handler b) as [h|]; [|done]. destruct Hb. eauto.
Qed.

(** A [Register] that installs nothing for a script id that is not a key
    binds the script id to an empty table. *)
Lemma Register_bare_binds_empty name (events : list (any World)) st :
  starts_with_pair events = false →
  map_index (Handlers (zqi st)) name = None →
  map_index (Handlers (zqi (final (Register name events st)))) name = Some (Some ∅).
Proof.
  intros Hp%starts_without_pair_leading Hn.
  destruct (Register_run name events st) as (_ & -> & _). simpl.
  rewrite lookup_insert_eq, Hp. unfold inner_table.
  by rewrite outer_table_lookup, Hn.
Qed.

(** A [Register] for a script id that is a key keeps the tables free of
    empty ones, whatever its arguments. *)
Lemma Register_known_no_residue name (events : list (any World)) st :
  is_Some (map_index (Handlers (zqi st)) name) →
  no_empty_residue (zqi st) →
  no_empty_residue (zqi (final (Register name events st))).
Proof.
  intros [inner Hn] Hinv name' inner'.
  destruct (Register_run name events st) as (_ & -> & _). simpl.
  destruct (decide (name' = name)) as [->|Hne].
  - rewrite lookup_insert_eq. intros [= <-]. simpl.
    intros Hsz%map_size_empty_iff. revert Hsz. apply install_nonempty.
    unfold inner_table. rewrite outer_table_lookup, Hn.
    specialize (Hinv name inner Hn). destruct inner as [t|]; [|done].
    simpl in *. by rewrite <- map_size_empty_iff.
  - rewrite lookup_insert_ne by done. rewrite outer_table_lookup. apply Hinv.
Qed.

(** One call keeps the tables free of empty ones exactly when it is not a
    [Register] installing nothing for a script id that is not a key. *)
Lemma exec_no_residue_iff o st :
  no_empty_residue (zqi st) →
  no_empty_residue (zqi (exec o st)) ↔ installs_or_known o st = true.
Proof.
  intros Hinv.
  destruct o as [name events|name events|name evt]; cbn [exec installs_or_known].
  - split.
    + intros Hafter. apply orb_true_iff.
      destruct (starts_with_pair events) eqn:Hp; [by left|right].
      apply bool_decide_eq_true.
      destruct (map_index (Handlers (zqi st)) name) as [inner|] eqn:Hn; [by eauto|].
      exfalso. by apply (Hafter name (Some ∅) (Register_bare_binds_empty _ _ _ Hp Hn)).
    + intros [Hp|Hk%bool_decide_eq_true]%orb_true_iff.
      * by apply Register_no_residue.
      * by apply Register_known_no_residue.
  - split; [done|]. intros _. by apply Unregister_no_residue.
  - split; [done|]. intros _. by rewrite Invoke_zqi.
Qed.

Lemma run_no_residue_iff (ops : list (Op World)) : ∀ st,
  no_empty_residue (zqi st) →
  (∀ n, no_empty_residue (zqi (run (take n ops) st))) ↔ no_bare_register ops st = true.
Proof.
  induction ops as [|o ops IH]; intros st Hinv.
  - split; [done|]. intros _ n. by destruct n.
  - cbn [no_bare_register]. rewrite andb_true_iff. split.
    + intros Hall.
      pose proof (Hall 1) as Hone. cbn [take run foldl] in Hone.
      split; [by apply exec_no_residue_iff|].
      apply IH; [done|]. intros n. apply (Hall (S n)).
    + intros [Ho Hops] n.
      apply exec_no_residue_iff in Ho; [|done].
      destruct n as [|n]; [done|].
      cbn [take run foldl]. by apply (IH (exec o st)).
Qed.
End residue_facts.

Section builder_facts.
Context {World : Type}.
Implicit Types (st : State World) (r : QuestEvent).

Lemma elems_reslice0 s : elems (reslice0 s) = [].
Proof. done. Qed.

(** Appending to a slice cut down to length zero yields the appended
    values, whether the backing array is reused or a new one is made. *)
Lemma elems_append_reslice0 slack s vals :
  elems (append slack (reslice0 s) vals) = vals.
Proof.
  unfold append. rewrite elems_reslice0. cbn [slen reslice0 Nat.add app].
  case_decide; unfold elems; cbn [slen backing]; by rewrite take_app_length.
Qed.

Lemma store_field_run st e r upd :
  evts (mem st) !! e = Some r →
  store_field e upd st =
    {| trace := []; out := Returns ();
       final := {| zqi := zqi st;
                   mem := {| evts := <[e := upd r]> (evts (mem st));
                             zone := zone (mem st) |} |} |}.
Proof.
  intros He. unfold store_field, mbind, Go_bind, load, store.
  rewrite He. simpl. by rewrite He.
Qed.

(** The shape shared by the one-store setters. *)
Lemma setter_writes_only f upd st e r :
  evts (mem st) !! e = Some r →
  (∀ g, g ≠ f → agree_on g r (upd r)) →
  writes_only f e r (upd r) st ((store_field e upd;; mret e) st).
Proof.
  intros He Hframe. unfold mbind, Go_bind.
  rewrite (store_field_run _ _ _ _ He). simpl.
  by repeat split.
Qed.

Lemma Strings_run slack st e r vals :
  evts (mem st) !! e = Some r →
  Strings slack e vals st =
    {| trace := []; out := Returns e;
       final := {| zqi := zqi st;
                   mem := {| evts := <[e := with_StringArray
                                           (append slack (reslice0 (StringArray r)) vals) r]>
                                       (evts (mem st));
                             zone := zone (mem st) |} |} |}.
Proof.
  intros He. unfold Strings, mbind, Go_bind, load, store.
  rewrite He. simpl. rewrite He. simpl.
  rewrite lookup_insert_eq. simpl. rewrite lookup_insert_eq. simpl.
  by rewrite insert_insert_eq.
Qed.

Lemma Reset_run st e r :
  evts (mem st) !! e = Some r →
  Reset e st =
    {| trace := []; out := Returns e;
       final := {| zqi := zqi st;
                   mem := {| evts := <[e := QuestEvent_zero]> (evts (mem st));
                             zone := zone (mem st) |} |} |}.
Proof.
  intros He. unfold Reset, mbind, Go_bind, store. by rewrite He.
Qed.
End builder_facts.

(** * Properties of the dispatch engine *)

Section dispatch_claims.
Context {World : Type}.
Implicit Types (st : State World) (h : QuestHandler World) (e : QuestEvent).

(** C1: for every registry state and every pair (script id, kind) that
    has a handler [h], [Invoke] on an event record of that kind calls [h]
    exactly once, directly, on that very record, and hands back what [h]
    hands back: the trace of the call is the single entry [Call h evt],
    the outcome and the memory are those of [h], a boolean returned by
    [h] is returned unmodified, and the registry is as before. *)
Theorem Invoke_calls_registered_handler st name evt e h :
  evts (mem st) !! evt = Some e →
  handler_of (zqi st) name (EventType e) = Some h →
  let r := Invoke name evt st in
  trace r = [Call h evt] ∧
  out r = (h evt (mem st)).1 ∧
  mem (final r) = (h evt (mem st)).2 ∧
  zqi (final r) = zqi st ∧
  ∀ b, (h evt (mem st)).1 = Returns b → out r = Returns b.
Proof.
  intros He Hh r. subst r. rewrite (Invoke_found _ _ _ _ _ He Hh). simpl.
  repeat split; done.
Qed.

(** C2: if the script id is not in the registry, or the kind of the
    event record has no handler under that script id, [Invoke] returns
    false, calls no handler (its trace is empty) and changes nothing:
    the registry, the event records and the zone are as before. *)
Theorem Invoke_unresolved_returns_false st name evt :
  map_index (Handlers (zqi st)) name = None ∨
  (∃ e, evts (mem st) !! evt = Some e ∧
        handler_of (zqi st) name (EventType e) = None) →
  Invoke name evt st = {| trace := []; out := Returns false; final := st |}.
Proof.
  intros [Hn|(e & He & Hh)].
  - by apply Invoke_unknown_script.
  - by apply (Invoke_unknown_kind _ _ _ e).
Qed.

(** C3, as the code has it: a panic raised by the invoked handler is not
    contained.  [Invoke] has no recover: the panic leaves [Invoke] with
    the handler's panic value, no boolean is returned, and the memory is
    as the handler left it. *)
Theorem Invoke_propagates_handler_panic st name evt e h v m :
  evts (mem st) !! evt = Some e →
  handler_of (zqi st) name (EventType e) = Some h →
  h evt (mem st) = (Panics v, m) →
  let r := Invoke name evt st in
  out r = Panics v ∧ trace r = [Call h evt] ∧ mem (final r) = m ∧
  zqi (final r) = zqi st.
Proof.
  intros He Hh Hp r. subst r. rewrite (Invoke_found _ _ _ _ _ He Hh).
  rewrite Hp. done.
Qed.

(** C5, what the code does: [Invoke] never touches the registry mutex.
    Its trace holds nothing but the handler call, so the lookup runs
    without the read lock, whereas [Register] and [Unregister] bracket
    their work with [Lock] and [Unlock]. *)
Theorem Invoke_takes_no_lock st name evt :
  (∀ ef, ef ∈ trace (Invoke name evt st) → ∃ h, ef = Call h evt) ∧
  (MuRLock ∉ trace (Invoke name evt st)) ∧
  (MuRUnlock ∉ trace (Invoke name evt st)) ∧
  (∀ events, trace (Register name events st) = [MuLock; MuUnlock]) ∧
  (∀ events, trace (Unregister name events st) = [MuLock; MuUnlock]).
Proof.
  split; [apply Invoke_trace|].
  split; [by intros [h ?]%Invoke_trace|].
  split; [by intros [h ?]%Invoke_trace|].
  split; intros events.
  - by destruct (Register_run name events st) as (-> & _).
  - by destruct (Unregister_run name events st) as (-> & _).
Qed.
End dispatch_claims.

Section registry_claims.
Context {World : Type}.
Implicit Types (st : State World) (h : QuestHandler World) (e : QuestEvent).

(** C4, as the code has it: on a malformed argument sequence (odd
    length, or an element of the wrong type for its position) [Register]
    fails at call time with a panic, after taking and releasing the
    lock, but what it did before the panic stays: the script id has a
    table (created if it had none), and the kind/handler pairs in front
    of the first malformed position are installed in it.  Other script
    ids, and kinds that are not among those pairs, keep their handlers. *)
Theorem Register_malformed_panics_after_leading_pairs name (events : list (any World)) st :
  malformed events = true →
  let r := Register name events st in
  (∃ v, out r = Panics v) ∧
  trace r = [MuLock; MuUnlock] ∧
  mem (final r) = mem st ∧
  Handlers (zqi (final r)) =
    Some (<[name := Some (install (leading_pairs events) (inner_table (zqi st) name))]>
            (outer_table (zqi st))) ∧
  (∀ name' k, name' ≠ name →
     handler_of (zqi (final r)) name' k = handler_of (zqi st) name' k) ∧
  (∀ k, k ∉ (leading_pairs events).*1 →
     handler_of (zqi (final r)) name k = handler_of (zqi st) name k).
Proof.
  intros Hbad r. subst r.
  pose proof (Register_handler_of name events st) as Hof.
  destruct (Register_run name events st) as (Htr & Hfin & Hout).
  rewrite Hbad in Hout.
  split; [done|]. split; [done|].
  split; [by rewrite Hfin|]. split; [by rewrite Hfin|].
  split.
  - intros name' k Hne. rewrite Hof. by rewrite decide_False.
  - intros k Hk. rewrite Hof. rewrite decide_True by done.
    rewrite install_lookup_other by done. apply inner_table_lookup.
Qed.

(** C6: after [Register(s, k, h1)] and then [Register(s, k, h2)], the
    handler of the pair (s, k) is [h2], and it stays [h2] through any
    later calls that are not a [Register] naming k under s or an
    [Unregister] of s that removes k: every [Invoke] of s on a record of
    kind k then calls [h2] and nothing else. *)
Theorem Register_later_replaces st s k (a1 a2 : any World) h1 h2 (ops : list (Op World)) :
  as_handler a1 = Some h1 →
  as_handler a2 = Some h2 →
  forallb (λ o, negb (touches s k o)) ops = true →
  let r1 := Register s [AnyQuestEventType k; a1] st in
  let r2 := Register s [AnyQuestEventType k; a2] (final r1) in
  let st' := run ops (final r2) in
  out r1 = Returns () ∧ out r2 = Returns () ∧
  handler_of (zqi (final r1)) s k = Some h1 ∧
  handler_of (zqi st') s k = Some h2 ∧
  ∀ evt e, evts (mem st') !! evt = Some e → EventType e = k →
    trace (Invoke s evt st') = [Call h2 evt] ∧
    out (Invoke s evt st') = (h2 evt (mem st')).1.
Proof.
  intros H1 H2 Hops r1 r2 st'.
  assert (Hwf : ∀ a h, as_handler a = Some h →
            malformed [AnyQuestEventType k; a] = false ∧
            leading_pairs [AnyQuestEventType k; a] = [(k, h)]).
  { intros a h Ha. split.
    - by rewrite (malformed_pair _ _ _ _ Ha).
    - simpl. by rewrite Ha. }
  destruct (Hwf _ _ H1) as [Hm1 Hl1]. destruct (Hwf _ _ H2) as [Hm2 Hl2].
  assert (Hafter : ∀ a h st0, leading_pairs [AnyQuestEventType k; a] = [(k, h)] →
            handler_of (zqi (final (Register s [AnyQuestEventType k; a] st0))) s k = Some h).
  { intros a h st0 Hl. rewrite Register_handler_of, decide_True by done.
    rewrite Hl. apply lookup_insert_eq. }
  assert (Hst' : handler_of (zqi st') s k = Some h2).
  { subst st'. rewrite run_untouched by done. by apply Hafter. }
  split.
  { destruct (Register_run s [AnyQuestEventType k; a1] st) as (_ & _ & Hout).
    by rewrite Hm1 in Hout. }
  split.
  { destruct (Register_run s [AnyQuestEventType k; a2] (final r1)) as (_ & _ & Hout).
    by rewrite Hm2 in Hout. }
  split; [by apply Hafter|]. split; [done|].
  intros evt e He <-. by rewrite (Invoke_found _ _ _ _ _ He Hst').
Qed.

(** C7: [Unregister(s)] without kinds leaves no handler under s, so
    every later [Invoke] of s on an event record returns false and calls
    nothing; [Unregister(s, kinds...)] with kinds removes the handlers of
    those kinds and keeps every other handler of s, which a later
    [Invoke] still calls; handlers of other script ids are kept by
    both. *)
Theorem Unregister_removes st s :
  (∀ k, handler_of (zqi (final (Unregister s [] st))) s k = None) ∧
  (∀ m evt e, evts m !! evt = Some e →
     let st' := {| zqi := zqi (final (Unregister s [] st)); mem := m |} in
     Invoke s evt st' = {| trace := []; out := Returns false; final := st' |}) ∧
  (∀ kinds k, k ∈ kinds →
     handler_of (zqi (final (Unregister s kinds st))) s k = None) ∧
  (∀ kinds k h, kinds ≠ [] → k ∉ kinds →
     handler_of (zqi st) s k = Some h →
     handler_of (zqi (final (Unregister s kinds st))) s k = Some h ∧
     ∀ m evt e, evts m !! evt = Some e → EventType e = k →
       let st' := {| zqi := zqi (final (Unregister s kinds st)); mem := m |} in
       trace (Invoke s evt st') = [Call h evt] ∧
       out (Invoke s evt st') = (h evt m).1) ∧
  (∀ kinds s' k, s' ≠ s →
     handler_of (zqi (final (Unregister s kinds st))) s' k = handler_of (zqi st) s' k).
Proof.
  assert (Hall : ∀ k, handler_of (zqi (final (Unregister s [] st))) s k = None).
  { intros k. rewrite Unregister_handler_of. rewrite decide_True; [done|]. by auto. }
  split; [done|]. split.
  { intros m evt e He st'. apply (Invoke_unknown_kind _ _ _ e); [done|]. apply Hall. }
  split.
  { intros kinds k Hk. rewrite Unregister_handler_of. rewrite decide_True; [done|]. by auto. }
  split.
  { intros kinds k h Hne Hk Hh.
    assert (Hkeep : handler_of (zqi (final (Unregister s kinds st))) s k = Some h).
    { rewrite Unregister_handler_of. rewrite decide_False; [done|].
      intros [_ [?|?]]; done. }
    split; [done|]. intros m evt e He <- st'.
    by rewrite (Invoke_found st' _ _ _ _ He Hkeep). }
  intros kinds s' k Hne. rewrite Unregister_handler_of.
  rewrite decide_False; [done|]. intros [? _]; done.
Qed.

(** C8, as the code has it: starting from a registry without script
    ids, a sequence of [Register], [Unregister] and [Invoke] calls leaves,
    after each of its calls, no script id bound to a table without
    handlers exactly when none of its calls is a [Register] that installs
    no handler (no arguments, or first arguments that are not a kind
    followed by a handler) for a script id that is not a key of the
    registry when the call is made. *)
Theorem no_empty_residue_iff_no_bare_register (ops : list (Op World)) st :
  registry_empty (zqi st) →
  (∀ n, no_empty_residue (zqi (run (take n ops) st))) ↔ no_bare_register ops st = true.
Proof.
  intros Hempty. apply run_no_residue_iff. by apply registry_empty_no_residue.
Qed.
End registry_claims.

Section record_claims.
Context {World : Type}.
Implicit Types (st : State World) (r : QuestEvent).

(** C9: [Reset] on an event record returns the pointer it was called
    on and leaves the zero record there: kind 0, no actor, no receiver,
    spell id and extra data 0, empty encounter name, no item, zone-data,
    item-array or actor-array reference, and a string list that is empty
    and has no backing storage.  The record left does not depend on what
    it held before; no other record, nor the zone or the registry, is
    touched. *)
Theorem Reset_clears st e r :
  evts (mem st) !! e = Some r →
  let res := Reset e st in
  trace res = [] ∧ out res = Returns e ∧
  zqi (final res) = zqi st ∧
  zone (mem (final res)) = zone (mem st) ∧
  evts (mem (final res)) = <[e := QuestEvent_zero]> (evts (mem st)) ∧
  ∃ r', evts (mem (final res)) !! e = Some r' ∧
    EventType r' = 0%N ∧ Actor r' = None ∧ Receiver r' = None ∧
    Item r' = None ∧ ZoneData r' = None ∧ EncounterName r' = ""%string ∧
    ExtraData r' = 0%N ∧ SpellID r' = 0%N ∧ ItemArray r' = None ∧
    ActorArray r' = None ∧
    elems (StringArray r') = [] ∧ cap (StringArray r') = 0.
Proof.
  intros He res. subst res. rewrite (Reset_run _ _ _ He). simpl.
  do 5 (split; [done|]).
  exists QuestEvent_zero. split; [apply lookup_insert_eq|]. by repeat split.
Qed.

(** C10: each chained setter, called on an event record, returns the
    pointer it was called on and writes the one field it names: the
    record it leaves agrees with the record before on every other field,
    and no other record, nor the zone or the registry, is touched.  The
    field written holds the argument; for [Strings] the elements of the
    string list are, in order, exactly the given values, whatever the
    list held before and whether or not its backing array is reused. *)
Theorem setters_write_one_field slack st e r :
  evts (mem st) !! e = Some r →
  (∀ t, ∃ r', writes_only FEventType e r r' st (Type_ e t st) ∧ EventType r' = t) ∧
  (∀ a, ∃ r', writes_only FActor e r r' st (SetActor e a st) ∧ Actor r' = a) ∧
  (∀ a, ∃ r', writes_only FReceiver e r r' st (SetReceiver e a st) ∧ Receiver r' = a) ∧
  (∀ id, ∃ r', writes_only FSpellID e r r' st (Spell e id st) ∧ SpellID r' = id) ∧
  (∀ d, ∃ r', writes_only FExtraData e r r' st (Extra e d st) ∧ ExtraData r' = d) ∧
  (∀ name, ∃ r', writes_only FEncounterName e r r' st (Encounter e name st) ∧
                 EncounterName r' = name) ∧
  (∀ vals, ∃ r', writes_only FStringArray e r r' st (Strings slack e vals st) ∧
                 elems (StringArray r') = vals).
Proof.
  intros He.
  repeat split; intros x.
  - exists (with_EventType x r). split; [|done].
    apply setter_writes_only; [done|]. by intros [].
  - exists (with_Actor x r). split; [|done].
    apply setter_writes_only; [done|]. by intros [].
  - exists (with_Receiver x r). split; [|done].
    apply setter_writes_only; [done|]. by intros [].
  - exists (with_SpellID x r). split; [|done].
    apply setter_writes_only; [done|]. by intros [].
  - exists (with_ExtraData x r). split; [|done].
    apply setter_writes_only; [done|]. by intros [].
  - exists (with_EncounterName x r). split; [|done].
    apply setter_writes_only; [done|]. by intros [].
  - exists (with_StringArray (append slack (reslice0 (StringArray r)) x) r).
    split; [|apply elems_append_reslice0].
    rewrite (Strings_run _ _ _ _ _ He). unfold writes_only. simpl.
    repeat split; try done. by intros [].
Qed.
End record_claims.

(** * The properties on the samples *)

Lemma Invoke_calls_registered_handler_witness :
  let r := Invoke "rat1" 1%positive sample_rat1 in
  trace r = [Call sample_sets_flag 1%positive] ∧
  out r = Returns true ∧
  zone (mem (final r)) = 1 ∧
  zqi (final r) = zqi sample_rat1.
Proof.
  destruct (Invoke_calls_registered_handler sample_rat1 "rat1" 1%positive
              sample_event sample_sets_flag)
    as (Htr & Hout & Hmem & Hz & _); [reflexivity | reflexivity |].
  cbv zeta. rewrite Htr, Hout, Hmem, Hz. repeat split.
Defined.

Lemma Invoke_unresolved_returns_false_witness :
  Invoke "rat1" 1%positive sample_fresh =
    {| trace := []; out := Returns false; final := sample_fresh |} ∧
  Invoke "bat" 1%positive sample_rat1 =
    {| trace := []; out := Returns false; final := sample_rat1 |}.
Proof.
  split.
  - apply (Invoke_unresolved_returns_false sample_fresh "rat1" 1%positive).
    left. reflexivity.
  - apply (Invoke_unresolved_returns_false sample_rat1 "bat" 1%positive).
    right. exists sample_event. split; reflexivity.
Defined.

(** C3 fails on the code: "rat1" has the faulty handler for EventDeath,
    the handler panics on the record at address 1, and [Invoke] ends in
    that panic instead of returning false. *)
Lemma Invoke_handler_panic_escapes :
  let r := Invoke "rat1" 1%positive sample_faulty_rat1 in
  evts (mem sample_faulty_rat1) !! 1%positive = Some sample_event ∧
  handler_of (zqi sample_faulty_rat1) "rat1" EventDeath = Some sample_faulty ∧
  out r = Panics (PanicString "script fault") ∧
  out r ≠ Returns false.
Proof.
  vm_compute. repeat split; discriminate.
Qed.

Lemma Invoke_propagates_handler_panic_witness :
  out (Invoke "rat1" 1%positive sample_faulty_rat1) = Panics (PanicString "script fault").
Proof.
  destruct (Invoke_propagates_handler_panic sample_faulty_rat1 "rat1" 1%positive
              sample_event sample_faulty (PanicString "script fault")
              (mem sample_faulty_rat1))
    as (Hout & _); [reflexivity | reflexivity | reflexivity |].
  exact Hout.
Defined.

(** C4 fails on the code: [Register("x", EventDeath)], the odd-length call
    of the specification's scenario, panics on the missing handler but
    has by then bound "x" to an empty table in a registry that had no
    table at all; and [Register("x", EventDeath, h, EventSay)] panics on
    the missing second handler with [h] installed for ("x", EventDeath). *)
Lemma Register_malformed_keeps_partial_registration :
  let short := [AnyQuestEventType EventDeath] in
  let long := [AnyQuestEventType EventDeath; AnyQuestHandler sample_sets_flag;
               AnyQuestEventType EventSay] in
  malformed short = true ∧ malformed long = true ∧
  out (Register "x" short sample_fresh) = Panics (IndexOutOfRange 1 1) ∧
  Handlers (zqi sample_fresh) = None ∧
  Handlers (zqi (final (Register "x" short sample_fresh))) = Some {[ "x" := Some ∅ ]} ∧
  out (Register "x" long sample_fresh) = Panics (IndexOutOfRange 3 3) ∧
  handler_of (zqi sample_fresh) "x" EventDeath = None ∧
  handler_of (zqi (final (Register "x" long sample_fresh))) "x" EventDeath
    = Some sample_sets_flag ∧
  Handlers (zqi (final (Register "x" long sample_fresh))) ≠ Handlers (zqi sample_fresh).
Proof.
  vm_compute. repeat split; discriminate.
Qed.

Lemma Register_malformed_panics_after_leading_pairs_witness :
  let r := Register "x" [AnyQuestEventType EventDeath; AnyQuestHandler sample_sets_flag;
                         AnyQuestEventType EventSay] sample_rat1 in
  (∃ v, out r = Panics v) ∧
  handler_of (zqi (final r)) "rat1" EventDeath = Some sample_sets_flag ∧
  handler_of (zqi (final r)) "x" EventSay = None.
Proof.
  destruct (Register_malformed_panics_after_leading_pairs "x"
              [AnyQuestEventType EventDeath; AnyQuestHandler sample_sets_flag;
               AnyQuestEventType EventSay] sample_rat1)
    as (Hout & _ & _ & _ & Hother & Hsame); [reflexivity|].
  split; [exact Hout|]. split.
  - rewrite Hother by discriminate. reflexivity.
  - rewrite Hsame; [reflexivity|].
    vm_compute. intros Hin. inversion Hin as [|? ? ? Hin']. inversion Hin'.
Defined.

Lemma Register_later_replaces_witness :
  let st' := run sample_other_calls
               (final (Register "goblin" [AnyQuestEventType EventSay; AnyFunc sample_sets_flag]
                  (final (Register "goblin" [AnyQuestEventType EventSay;
                                             AnyQuestHandler sample_declines]
                            sample_fresh)))) in
  handler_of (zqi st') "goblin" EventSay = Some sample_sets_flag.
Proof.
  destruct (Register_later_replaces sample_fresh "goblin" EventSay
              (AnyQuestHandler sample_declines) (AnyFunc sample_sets_flag)
              sample_declines sample_sets_flag sample_other_calls)
    as (_ & _ & _ & Hh & _); [reflexivity | reflexivity | reflexivity |].
  exact Hh.
Defined.

Lemma Unregister_removes_witness :
  handler_of (zqi (final (Unregister "rat1" [] sample_rat1_two_kinds))) "rat1" EventDeath = None ∧
  handler_of (zqi (final (Unregister "rat1" [EventSay] sample_rat1_two_kinds))) "rat1" EventSay
    = None ∧
  handler_of (zqi (final (Unregister "rat1" [EventSay] sample_rat1_two_kinds))) "rat1" EventDeath
    = Some sample_sets_flag.
Proof.
  destruct (Unregister_removes sample_rat1_two_kinds "rat1")
    as (Hall & _ & Hgone & Hkept & _).
  split; [apply Hall|]. split.
  - apply Hgone. left.
  - apply (Hkept [EventSay] EventDeath sample_sets_flag); [discriminate| |reflexivity].
    intros Hin. inversion Hin as [|? ? ? Hin']. inversion Hin'.
Defined.

(** C8 fails on the code: [Register("x")] with no pairs, on a registry
    without script ids, binds "x" to a table without handlers. *)
Lemma Register_without_pairs_leaves_empty_table :
  registry_empty (zqi sample_fresh) ∧
  out (Register "x" [] sample_fresh) = Returns () ∧
  map_index (Handlers (zqi (run [OpRegister "x" []] sample_fresh))) "x" = Some (Some ∅) ∧
  ¬ no_empty_residue (zqi (run [OpRegister "x" []] sample_fresh)).
Proof.
  split; [reflexivity|]. split; [reflexivity|]. split; [reflexivity|].
  intros Hinv. apply (Hinv "x" (Some ∅)); reflexivity.
Qed.

Lemma no_empty_residue_iff_no_bare_register_witness :
  no_empty_residue (zqi (run sample_session_with_bare_register sample_fresh)) ∧
  no_bare_register [OpRegister "x" []] sample_fresh = false.
Proof.
  split; [|reflexivity].
  destruct (no_empty_residue_iff_no_bare_register sample_session_with_bare_register
              sample_fresh) as [_ Hkeeps]; [reflexivity|].
  apply (Hkeeps eq_refl (length sample_session_with_bare_register)).
Defined.

Lemma Reset_clears_witness :
  let res := Reset 1%positive sample_fresh in
  out res = Returns 1%positive ∧
  evts (mem (final res)) !! 1%positive = Some QuestEvent_zero.
Proof.
  destruct (Reset_clears sample_fresh 1%positive sample_event)
    as (_ & Hout & _ & _ & Hev & _); [reflexivity|].
  split; [exact Hout|]. rewrite Hev. reflexivity.
Defined.

Lemma setters_write_one_field_witness :
  ∃ r', writes_only FStringArray 1%positive sample_event r' sample_fresh
          (Strings sample_slack 1%positive ["gnoll"; "camp"; "east"; "gate"]%string sample_fresh) ∧
        elems (StringArray r') = ["gnoll"; "camp"; "east"; "gate"]%string.
Proof.
  destruct (setters_write_one_field sample_slack sample_fresh 1%positive sample_event)
    as (_ & _ & _ & _ & _ & _ & Hstrings); [reflexivity|].
  apply Hstrings.
Defined.

(** * Further properties of the registry *)

Section register_more.
Context {World : Type}.
Implicit Types (st : State World) (h : QuestHandler World).
Implicit Types (T : gmap string (GoMap QuestEventType (QuestHandler World))).
Implicit Types (t : gmap QuestEventType (QuestHandler World)).
Implicit Types (events pre rest : list (any World)).

Lemma malformed_single (a : any World) : malformed [a] = true.
Proof. done. Qed.

Lemma malformed_pair_inv (a b : any World) rest :
  malformed (a :: b :: rest) = false →
  ∃ k h, a = AnyQuestEventType k ∧ as_handler b = Some h ∧ malformed rest = false.
Proof.
  intros Hm. destruct a as [|k|?|?|?];
    try (rewrite malformed_not_kind in Hm by done; discriminate).
  destruct (as_handler b) as [h|] eqn:Hb.
  - rewrite (malformed_pair _ _ _ _ Hb) in Hm. eauto.
  - rewrite malformed_not_handler in Hm by done. discriminate.
Qed.

Lemma install_lookup pairs t k :
  install pairs t !! k =
  match last_binding k pairs with Some h => Some h | None => t !! k end.
Proof.
  revert t. induction pairs as [|[k' h] pairs IH]; intros t; [done|].
  rewrite install_cons, IH. cbn [last_binding].
  destruct (last_binding k pairs); [done|].
  destruct (decide (k' = k)) as [->|Hne].
  - apply lookup_insert_eq.
  - by apply lookup_insert_ne.
Qed.

Lemma install_idem pairs t : install pairs (install pairs t) = install pairs t.
Proof.
  apply map_eq. intros k. rewrite !install_lookup.
  by destruct (last_binding k pairs).
Qed.

Lemma leading_pairs_all events :
  malformed events = false → 2 * length (leading_pairs events) = length events.
Proof.
  induction events as [|a|a b events IH] using list_pair_ind; intros Hm.
  - done.
  - by rewrite malformed_single in Hm.
  - destruct (malformed_pair_inv _ _ _ Hm) as (k & h & -> & Hb & Hm').
    cbn [leading_pairs]. rewrite Hb. cbn [length]. specialize (IH Hm'). lia.
Qed.

(** The state in which the loop of [Register] starts. *)
Lemma Register_enters_loop name events st :
  Register name events st =
  (emit MuLock;; defer (emit MuUnlock) (Register_loop name (length events) 0 events))
    {| zqi := {| ZoneAccess := ZoneAccess (zqi st);
                 Handlers := Some (<[name := Some (inner_table (zqi st) name)]>
                                     (outer_table (zqi st))) |};
       mem := mem st |}.
Proof.
  unfold inner_table, outer_table. destruct st as [[za Hs] m].
  unfold Register, defer, mbind, Go_bind. simpl.
  destruct Hs as [T|]; simpl.
  - destruct (T !! name) as [[t|]|] eqn:Hn; simpl; [|done..].
    by rewrite (insert_id T name (Some t)).
  - rewrite lookup_empty. done.
Qed.

Lemma Register_out name events st :
  out (Register name events st) =
  out (Register_loop name (length events) 0 events
         {| zqi := {| ZoneAccess := ZoneAccess (zqi st);
                      Handlers := Some (<[name := Some (inner_table (zqi st) name)]>
                                          (outer_table (zqi st))) |};
            mem := mem st |}).
Proof.
  rewrite Register_enters_loop. unfold defer, mbind, Go_bind. simpl. done.
Qed.

(** The loop walks over a well-formed prefix and goes on behind it, the
    index advanced by the length of the prefix. *)
Lemma Register_loop_skips_prefix name n pre rest : ∀ i st T t,
  malformed pre = false →
  Handlers (zqi st) = Some T → T !! name = Some (Some t) →
  out (Register_loop name n i (pre ++ rest) st) =
  out (Register_loop name n (i + length pre) rest
         {| zqi := {| ZoneAccess := ZoneAccess (zqi st);
                      Handlers := Some (<[name := Some (install (leading_pairs pre) t)]> T) |};
            mem := mem st |}).
Proof.
  induction pre as [|a|a b pre IH] using list_pair_ind; intros i st T t Hm HT Hn.
  - simpl. rewrite Nat.add_0_r. do 2 f_equal.
    destruct st as [[za Hs] m]. simpl in *. subst Hs. by rewrite insert_id.
  - by rewrite malformed_single in Hm.
  - destruct (malformed_pair_inv _ _ _ Hm) as (k & h & -> & Hb & Hm').
    assert (leading_pairs (AnyQuestEventType k :: b :: pre) = (k, h) :: leading_pairs pre) as ->.
    { simpl. by rewrite Hb. }
    rewrite install_cons.
    assert (Register_loop name n i ((AnyQuestEventType k :: b :: pre) ++ rest) st =
            (assign_handler name k h;; Register_loop name n (i + 2) (pre ++ rest)) st) as ->.
    { destruct b; simpl in Hb; try discriminate; by simplify_eq. }
    unfold mbind, Go_bind.
    rewrite (assign_handler_run _ _ _ _ _ _ HT Hn). simpl.
    rewrite (IH (i + 2)
             {| zqi := {| ZoneAccess := ZoneAccess (zqi st);
                          Handlers := Some (<[name := Some (<[k := h]> t)]> T) |};
                mem := mem st |}
             (<[name := Some (<[k := h]> t)]> T) (<[k := h]> t) Hm' eq_refl)
      by apply lookup_insert_eq.
    simpl. rewrite insert_insert_eq.
    replace (i + 2 + length pre) with (i + S (S (length pre))) by lia. done.
Qed.
Lemma outer_table_made za T :
  outer_table {| ZoneAccess := za; Handlers := Some T |} = T.
Proof. done. Qed.

Lemma inner_table_inserted za T name t :
  inner_table {| ZoneAccess := za; Handlers := Some (<[name := Some t]> T) |} name = t.
Proof. unfold inner_table. rewrite outer_table_made, lookup_insert_eq. done. Qed.

Lemma inner_table_inserted_ne za T name name' (m : GoMap QuestEventType (QuestHandler World)) :
  name ≠ name' →
  inner_table {| ZoneAccess := za; Handlers := Some (<[name := m]> T) |} name' =
  default ∅ (default None (T !! name')).
Proof.
  intros Hne. unfold inner_table. by rewrite outer_table_made, lookup_insert_ne.
Qed.
End register_more.

Section register_properties.
Context {World : Type}.
Implicit Types (st : State World) (h : QuestHandler World).
Implicit Types (events pre rest : list (any World)).

(** X1: on a well-formed argument sequence [Register] returns normally
    and has read every argument as part of a pair; afterwards a kind
    named by some pair has the handler of the last pair naming it (within
    one call, too, a later pair replaces an earlier one), and a kind named
    by no pair has the handler it had. *)
Theorem Register_well_formed_installs_all name events st :
  malformed events = false →
  let r := Register name events st in
  out r = Returns () ∧
  2 * length (leading_pairs events) = length events ∧
  ∀ k, handler_of (zqi (final r)) name k =
       match last_binding k (leading_pairs events) with
       | Some h => Some h
       | None => handler_of (zqi st) name k
       end.
Proof.
  intros Hm r. subst r.
  destruct (Register_run name events st) as (_ & _ & Hout). rewrite Hm in Hout.
  split; [done|]. split; [by apply leading_pairs_all|].
  intros k. rewrite Register_handler_of, decide_True by done.
  rewrite install_lookup. by rewrite inner_table_lookup.
Qed.

(** X2: the panic of [Register] tells where the arguments go wrong.  With
    a well-formed prefix [pre] in front: an argument that should be a kind
    and is not gives the message with its index; a kind that is the last
    argument gives the runtime's index-out-of-range error for the index
    after it, the length of the sequence; a kind followed by something
    that is not a handler gives the message with that argument's index. *)
Theorem Register_panic_names_argument name pre rest st :
  malformed pre = false →
  let r := Register name (pre ++ rest) st in
  (∀ a rest', rest = a :: rest' → is_kind a = false →
     out r = Panics (PanicString
               ("arg " +:+ pretty (length pre) +:+ " is not QuestEventType"))) ∧
  (∀ k, rest = [AnyQuestEventType k] →
     out r = Panics (IndexOutOfRange (length pre + 1) (length pre + 1))) ∧
  (∀ k b rest', rest = AnyQuestEventType k :: b :: rest' → as_handler b = None →
     out r = Panics (PanicString
               ("arg " +:+ pretty (length pre + 1) +:+ " is not a valid QuestHandler"))).
Proof.
  intros Hm r. subst r. rewrite Register_out.
  erewrite Register_loop_skips_prefix;
    [|done|simpl; reflexivity|apply lookup_insert_eq].
  cbn [Nat.add]. repeat split.
  - intros a rest' -> Ha. by destruct a.
  - intros k ->. cbn [Register_loop panic out]. rewrite length_app. cbn [length].
    done.
  - intros k b rest' -> Hb. by destruct b.
Qed.

(** X3: [Register] is idempotent on the state it leaves: a second call
    with the same script id and arguments, returning or panicking, leaves
    the registry and the memory exactly as the first call left them. *)
Theorem Register_idempotent name events st :
  final (Register name events (final (Register name events st))) =
  final (Register name events st).
Proof.
  destruct (Register_run name events (final (Register name events st)))
    as (_ & -> & _).
  destruct (Register_run name events st) as (_ & -> & _).
  cbn [zqi mem ZoneAccess]. rewrite inner_table_inserted, outer_table_made.
  by rewrite install_idem, insert_insert_eq.
Qed.

(** X4: [Register] calls for different script ids commute: whichever
    order they are made in, returning or panicking, the state left is the
    same. *)
Theorem Register_commutes s1 s2 (events1 events2 : list (any World)) st :
  s1 ≠ s2 →
  final (Register s2 events2 (final (Register s1 events1 st))) =
  final (Register s1 events1 (final (Register s2 events2 st))).
Proof.
  intros Hne.
  destruct (Register_run s2 events2 (final (Register s1 events1 st))) as (_ & -> & _).
  destruct (Register_run s1 events1 (final (Register s2 events2 st))) as (_ & -> & _).
  destruct (Register_run s1 events1 st) as (_ & -> & _).
  destruct (Register_run s2 events2 st) as (_ & -> & _).
  cbn [zqi mem ZoneAccess].
  rewrite !outer_table_made, !inner_table_inserted_ne by done.
  fold (inner_table (zqi st) s1). fold (inner_table (zqi st) s2).
  by rewrite insert_insert_ne.
Qed.
End register_properties.

Section unregister_properties.
Context {World : Type}.
Implicit Types (st : State World) (h : QuestHandler World).
Implicit Types (T : gmap string (GoMap QuestEventType (QuestHandler World))).
Implicit Types (t : gmap QuestEventType (QuestHandler World)).
Implicit Types (kinds : list QuestEventType).

Lemma State_eq st st' :
  mem st = mem st' →
  ZoneAccess (zqi st) = ZoneAccess (zqi st') →
  Handlers (zqi st) = Handlers (zqi st') →
  st = st'.
Proof.
  destruct st as [[za H] m], st' as [[za' H'] m']. simpl. by intros -> -> ->.
Qed.

Lemma remove_kinds_idem kinds t :
  remove_kinds kinds (remove_kinds kinds t) = remove_kinds kinds t.
Proof.
  apply map_eq. intros k. rewrite !remove_kinds_lookup.
  by destruct (decide (k ∈ kinds)).
Qed.

(** X5: [Unregister] on a script id that is not a key of the registry
    returns without changing anything: the registry, nil or not, and the
    memory are exactly as before (a nil registry stays nil; only
    [Register] allocates). *)
Theorem Unregister_unknown_script_noop name kinds st :
  map_index (Handlers (zqi st)) name = None →
  out (Unregister name kinds st) = Returns () ∧
  final (Unregister name kinds st) = st.
Proof.
  intros Hn.
  destruct (Unregister_run name kinds st) as (_ & Hout & Hmem & Hza & HH).
  split; [done|]. apply State_eq; [done..|].
  rewrite HH. destruct (Handlers (zqi st)) as [T|]; [|done].
  simpl in Hn. by rewrite Hn.
Qed.

(** X6: what [Unregister] leaves of a script id bound to a table [t].  If
    no kinds are given, or every kind that has a handler in [t] is among
    the given ones (so also when [t] has no handler at all), the script id
    is no longer a key of the registry.  Otherwise it stays bound to the
    table that holds exactly the handlers of [t] for the kinds not given,
    and that table is not empty. *)
Theorem Unregister_entry_gone_or_nonempty name kinds st t :
  map_index (Handlers (zqi st)) name = Some (Some t) →
  let after := map_index (Handlers (zqi (final (Unregister name kinds st)))) name in
  (kinds = [] ∨ (∀ k, is_Some (t !! k) → k ∈ kinds) → after = None) ∧
  (kinds ≠ [] → ∀ k, is_Some (t !! k) → k ∉ kinds →
     after = Some (Some (remove_kinds kinds t)) ∧
     remove_kinds kinds t ≠ ∅ ∧
     ∀ k', remove_kinds kinds t !! k' = if decide (k' ∈ kinds) then None else t !! k').
Proof.
  intros Hn after. subst after.
  destruct (Unregister_run name kinds st) as (_ & _ & _ & _ & ->).
  destruct (Handlers (zqi st)) as [T|]; [|done]. simpl in Hn. rewrite Hn.
  split.
  - intros Hall. destruct (decide (kinds = [])); [apply lookup_delete_eq|].
    destruct Hall as [?|Hall]; [done|].
    rewrite decide_True; [apply lookup_delete_eq|].
    apply map_size_empty_iff, map_empty. intros k.
    rewrite remove_kinds_lookup. destruct (decide (k ∈ kinds)) as [|Hk]; [done|].
    destruct (t !! k) eqn:Htk; [|done]. destruct Hk. apply Hall. by rewrite Htk.
  - intros Hne k [h Hk] Hnot. rewrite decide_False by done.
    assert (Hkeep : remove_kinds kinds t !! k = Some h).
    { rewrite remove_kinds_lookup. by rewrite decide_False. }
    assert (Hnonempty : remove_kinds kinds t ≠ ∅).
    { intros He. by rewrite He, lookup_empty in Hkeep. }
    rewrite decide_False by (by rewrite map_size_empty_iff).
    simpl. rewrite lookup_insert_eq. split; [done|]. split; [done|].
    intros k'. apply remove_kinds_lookup.
Qed.

(** X7: [Unregister(s)] undoes a [Register(s, ...)] made for a script id
    that was not a key of the registry, whatever the arguments were and
    whether [Register] returned or panicked: every entry is as before the
    two calls and s is again not a key.  The one trace is that a nil
    registry has become an allocated, empty one. *)
Theorem Register_then_Unregister_restores name (events : list (any World)) st :
  map_index (Handlers (zqi st)) name = None →
  let st' := final (Unregister name [] (final (Register name events st))) in
  Handlers (zqi st') = Some (default ∅ (Handlers (zqi st))) ∧
  (∀ name', map_index (Handlers (zqi st')) name' = map_index (Handlers (zqi st)) name') ∧
  mem st' = mem st ∧ ZoneAccess (zqi st') = ZoneAccess (zqi st).
Proof.
  intros Hn st'. subst st'.
  destruct (Unregister_run name [] (final (Register name events st)))
    as (_ & _ & Hmem & Hza & HH).
  rewrite Hmem, Hza, HH. clear Hmem Hza HH.
  destruct (Register_run name events st) as (_ & -> & _).
  cbn [zqi mem ZoneAccess Handlers]. rewrite lookup_insert_eq.
  rewrite decide_True by done.
  rewrite delete_insert_eq, delete_id by (by rewrite outer_table_lookup).
  split; [done|]. split; [|done].
  intros name'. simpl. apply outer_table_lookup.
Qed.

(** X8: [Unregister] is idempotent: a second call with the same script
    id and kinds changes nothing. *)
Theorem Unregister_idempotent name kinds st :
  final (Unregister name kinds (final (Unregister name kinds st))) =
  final (Unregister name kinds st).
Proof.
  destruct (Unregister_run name kinds (final (Unregister name kinds st)))
    as (_ & _ & Hmem & Hza & HH).
  apply State_eq; [done..|]. rewrite HH. clear Hmem Hza HH.
  destruct (Unregister_run name kinds st) as (_ & _ & _ & _ & ->).
  destruct (Handlers (zqi st)) as [T|]; [|done].
  destruct (T !! name) as [[t|]|] eqn:Hn; [|by rewrite Hn..].
  destruct (decide (kinds = [])) as [->|Hne].
  { by rewrite lookup_delete_eq. }
  destruct (decide (size (remove_kinds kinds t) = 0)) as [Hsz|Hsz].
  { by rewrite lookup_delete_eq. }
  rewrite lookup_insert_eq, remove_kinds_idem.
  rewrite (decide_False (P := size (remove_kinds kinds t) = 0)) by done.
  by rewrite insert_insert_eq.
Qed.
End unregister_properties.

(** * Further properties of dispatch and of the facade binding *)

Section invoke_properties.
Context {World : Type}.
Implicit Types (st : State World) (h : QuestHandler World) (o : Op World).

Lemma exec_ZoneAccess o st : ZoneAccess (zqi (exec o st)) = ZoneAccess (zqi st).
Proof.
  destruct o as [name events|name events|name evt]; cbn [exec].
  - by destruct (Register_run name events st) as (_ & -> & _).
  - by destruct (Unregister_run name events st) as (_ & _ & _ & -> & _).
  - by rewrite Invoke_zqi.
Qed.

Lemma exec_registry_call_mem o st :
  is_registry_call o = true → mem (exec o st) = mem st.
Proof.
  destruct o as [name events|name events|name evt]; cbn [exec]; intros Ho.
  - by destruct (Register_run name events st) as (_ & -> & _).
  - by destruct (Unregister_run name events st) as (_ & _ & -> & _).
  - done.
Qed.

(** X9: [Invoke] on a nil event pointer.  The record is read only after
    the script id has been found: for a script id that is a key of the
    registry [Invoke] panics with a nil dereference, whatever kinds it
    has handlers for; for any other script id it returns false.  Either
    way no handler is called and nothing is changed. *)
Theorem Invoke_nil_event st name evt :
  evts (mem st) !! evt = None →
  Invoke name evt st =
    {| trace := [];
       out := match map_index (Handlers (zqi st)) name with
              | Some _ => Panics NilDereference
              | None => Returns false
              end;
       final := st |}.
Proof.
  intros He. unfold Invoke, mbind, Go_bind, get_handlers, load. simpl.
  destruct (map_index (Handlers (zqi st)) name) as [inner|]; [|done].
  simpl. by rewrite He.
Qed.

(** X10: what [Invoke] never does.  It calls at most one handler; unless
    it calls one it leaves the state exactly as it was; and it reports an
    event as handled only when the handler registered for the script id
    and the record's kind was called on the record and returned true. *)
Theorem Invoke_handled_only_by_handler st name evt :
  let r := Invoke name evt st in
  length (trace r) ≤ 1 ∧
  (trace r = [] → final r = st) ∧
  (out r = Returns true →
     ∃ e h m, evts (mem st) !! evt = Some e ∧
              handler_of (zqi st) name (EventType e) = Some h ∧
              h evt (mem st) = (Returns true, m) ∧
              trace r = [Call h evt] ∧ mem (final r) = m).
Proof.
  intros r. subst r.
  destruct (evts (mem st) !! evt) as [e|] eqn:He.
  - destruct (handler_of (zqi st) name (EventType e)) as [h|] eqn:Hh.
    + rewrite (Invoke_found _ _ _ _ _ He Hh). simpl.
      split; [done|]. split; [done|]. intros Hout.
      exists e, h, (h evt (mem st)).2. repeat split; try done.
      destruct (h evt (mem st)) as [o m]. simpl in *. by subst o.
    + rewrite (Invoke_unknown_kind _ _ _ _ He Hh). simpl.
      split; [lia|]. split; [done|]. discriminate.
  - rewrite (Invoke_nil_event _ _ _ He). simpl.
    split; [lia|]. split; [done|].
    by destruct (map_index (Handlers (zqi st)) name).
Qed.

(** X11: [SetZoneAccess] binds the facade and nothing else: handlers and
    memory are as before, no lock is taken, and no later [Register],
    [Unregister] or [Invoke] unbinds or rebinds it. *)
Theorem ZoneAccess_stays_bound za (ops : list (Op World)) st :
  let r := SetZoneAccess za st in
  trace r = [] ∧ out r = Returns () ∧
  Handlers (zqi (final r)) = Handlers (zqi st) ∧
  mem (final r) = mem st ∧
  ZoneAccess (zqi (run ops (final r))) = za.
Proof.
  intros r. subst r. do 4 (split; [done|]).
  assert (Hrun : ∀ st0, ZoneAccess (zqi (run ops st0)) = ZoneAccess (zqi st0)).
  { induction ops as [|o ops IH]; intros st0; [done|].
    cbn [run foldl]. unfold run in IH. rewrite IH. apply exec_ZoneAccess. }
  by rewrite Hrun.
Qed.

(** X12: [Register] and [Unregister] work on the registry only: a
    sequence of such calls, returning or panicking, leaves every event
    record and the zone as they were. *)
Theorem registry_calls_leave_memory (ops : list (Op World)) st :
  forallb is_registry_call ops = true →
  mem (run ops st) = mem st.
Proof.
  revert st. induction ops as [|o ops IH]; intros st Hops; [done|].
  simpl in Hops. apply andb_true_iff in Hops as [Ho Hops].
  cbn [run foldl]. unfold run in IH. rewrite IH by done.
  by apply exec_registry_call_mem.
Qed.
End invoke_properties.

(** * Further properties of the event record *)

Section builder_properties.
Context {World : Type}.
Implicit Types (st : State World) (r : QuestEvent).

Lemma Go_bind_returns {A B} (m : Go World A) (k : A → Go World B) st a st' :
  m st = {| trace := []; out := Returns a; final := st' |} →
  (m ≫= k) st = k a st'.
Proof.
  intros Hm. unfold mbind, Go_bind. rewrite Hm. simpl. by destruct (k a st').
Qed.

Lemma set_record_lookup e r st : evts (mem (set_record e r st)) !! e = Some r.
Proof. apply lookup_insert_eq. Qed.

Lemma set_record_twice e r1 r2 st :
  set_record e r2 (set_record e r1 st) = set_record e r2 st.
Proof. unfold set_record. simpl. by rewrite insert_insert_eq. Qed.

Lemma setter_run e upd st r :
  evts (mem st) !! e = Some r →
  (store_field e upd;; mret e) st =
    {| trace := []; out := Returns e; final := set_record e (upd r) st |}.
Proof.
  intros He. unfold mbind, Go_bind. by rewrite (store_field_run _ _ _ _ He).
Qed.

Lemma load_nil e st :
  evts (mem st) !! e = None →
  load e st = {| trace := []; out := Panics NilDereference; final := st |}.
Proof. intros He. unfold load. by rewrite He. Qed.

Lemma setter_nil e upd st :
  evts (mem st) !! e = None →
  (store_field e upd;; mret e) st =
    {| trace := []; out := Panics NilDereference; final := st |}.
Proof.
  intros He. unfold store_field, mbind, Go_bind. by rewrite (load_nil _ _ He).
Qed.

(** X13: called on a nil pointer, [Reset] and every setter panic with a
    nil dereference; no record, nor the zone or the registry, is
    changed. *)
Theorem builders_panic_on_nil slack st e :
  evts (mem st) !! e = None →
  let failed := {| trace := []; out := Panics NilDereference; final := st |} in
  Reset e st = failed ∧
  (∀ t, Type_ e t st = failed) ∧
  (∀ a, SetActor e a st = failed) ∧
  (∀ a, SetReceiver e a st = failed) ∧
  (∀ id, Spell e id st = failed) ∧
  (∀ d, Extra e d st = failed) ∧
  (∀ name, Encounter e name st = failed) ∧
  (∀ vals, Strings slack e vals st = failed).
Proof.
  intros He failed. subst failed.
  split; [unfold Reset, mbind, Go_bind, store; by rewrite He|].
  repeat split; intros x; try by apply setter_nil.
  unfold Strings, mbind, Go_bind. by rewrite (load_nil _ _ He).
Qed.

(** X14: the reset-then-populate chain on an event record returns the
    pointer it started from and leaves a record that holds the seven given
    values, with the item, zone-data, item-array and actor-array
    references nil; nothing of the record's earlier contents is left, and
    nothing else is changed. *)
Theorem reset_and_populate_fills slack st e r0 t a rcv id d name vals :
  evts (mem st) !! e = Some r0 →
  ∃ r', reset_and_populate slack e t a rcv id d name vals st =
          {| trace := []; out := Returns e; final := set_record e r' st |} ∧
        EventType r' = t ∧ Actor r' = a ∧ Receiver r' = rcv ∧ SpellID r' = id ∧
        ExtraData r' = d ∧ EncounterName r' = name ∧
        elems (StringArray r') = vals ∧
        Item r' = None ∧ ZoneData r' = None ∧ ItemArray r' = None ∧
        ActorArray r' = None.
Proof.
  intros He. eexists. split.
  - unfold reset_and_populate.
    erewrite Go_bind_returns; [|by apply (Reset_run st e r0)].
    fold (set_record e QuestEvent_zero st).
    erewrite Go_bind_returns; [|apply setter_run, set_record_lookup].
    erewrite Go_bind_returns; [|apply setter_run, set_record_lookup].
    erewrite Go_bind_returns; [|apply setter_run, set_record_lookup].
    erewrite Go_bind_returns; [|apply setter_run, set_record_lookup].
    erewrite Go_bind_returns; [|apply setter_run, set_record_lookup].
    erewrite Go_bind_returns; [|apply setter_run, set_record_lookup].
    erewrite Strings_run; [|apply set_record_lookup].
    rewrite !set_record_twice. unfold set_record at 1. simpl.
    rewrite insert_insert_eq. unfold set_record. reflexivity.
  - simpl. repeat split. apply (elems_append_reslice0 slack nil_slice vals).
Qed.

(** X15: [Strings] reuses the backing array of the string list when the
    given values fit into it: the capacity is unchanged and the cells
    behind the new length still hold what they held (strings of an
    earlier use stay in memory there).  When the values do not fit, the
    list gets a new array whose capacity is the number of values plus the
    spare cells the runtime adds. *)
Theorem Strings_reuses_backing_array slack st e r vals :
  evts (mem st) !! e = Some r →
  ∃ r', evts (mem (final (Strings slack e vals st))) !! e = Some r' ∧
    slen (StringArray r') = length vals ∧
    (length vals ≤ cap (StringArray r) →
       backing (StringArray r') = vals ++ drop (length vals) (backing (StringArray r)) ∧
       cap (StringArray r') = cap (StringArray r)) ∧
    (cap (StringArray r) < length vals →
       cap (StringArray r') = length vals + slack (cap (StringArray r)) (length vals)).
Proof.
  intros He. rewrite (Strings_run _ _ _ _ _ He). simpl.
  eexists. split; [apply lookup_insert_eq|].
  unfold append, cap, elems. simpl. split; [by case_decide|]. split.
  - intros Hfit. rewrite decide_True by done. simpl. split; [done|].
    rewrite length_app, length_drop. unfold cap in Hfit. lia.
  - intros Hbig. rewrite decide_False by (unfold cap in *; simpl; lia). simpl.
    by rewrite length_app, length_replicate.
Qed.
End builder_properties.

(** * The further properties on the samples *)

Lemma Register_well_formed_installs_all_witness :
  let r := Register "goblin" [AnyQuestEventType EventSay; AnyQuestHandler sample_declines;
                              AnyQuestEventType EventSay; AnyFunc sample_sets_flag]
             sample_rat1 in
  out r = Returns () ∧
  handler_of (zqi (final r)) "goblin" EventSay = Some sample_sets_flag.
Proof.
  destruct (Register_well_formed_installs_all "goblin"
              [AnyQuestEventType EventSay; AnyQuestHandler sample_declines;
               AnyQuestEventType EventSay; AnyFunc sample_sets_flag] sample_rat1)
    as (Hout & _ & Hh); [reflexivity|].
  split; [exact Hout|]. rewrite Hh. reflexivity.
Defined.

Lemma Register_panic_names_argument_witness :
  out (Register "x" [AnyQuestEventType EventDeath; AnyQuestHandler sample_sets_flag;
                     AnyOther "int"; AnyQuestHandler sample_declines] sample_fresh)
  = Panics (PanicString "arg 2 is not QuestEventType").
Proof.
  destruct (Register_panic_names_argument "x"
              [AnyQuestEventType EventDeath; AnyQuestHandler sample_sets_flag]
              [AnyOther "int"; AnyQuestHandler sample_declines] sample_fresh)
    as (Hkind & _ & _); [reflexivity|].
  apply (Hkind (AnyOther "int") [AnyQuestHandler sample_declines]); reflexivity.
Defined.

Lemma Register_commutes_witness :
  final (Register "bat" [AnyQuestEventType EventSpawn]
           (final (Register "rat1" [AnyQuestEventType EventSay; AnyFunc sample_declines]
                     sample_fresh))) =
  final (Register "rat1" [AnyQuestEventType EventSay; AnyFunc sample_declines]
           (final (Register "bat" [AnyQuestEventType EventSpawn] sample_fresh))).
Proof.
  apply (Register_commutes "rat1" "bat"). discriminate.
Defined.

Lemma Unregister_unknown_script_noop_witness :
  final (Unregister "bat" [EventSay] sample_fresh) = sample_fresh ∧
  final (Unregister "bat" [] sample_rat1) = sample_rat1.
Proof.
  split.
  - apply (Unregister_unknown_script_noop "bat" [EventSay] sample_fresh). reflexivity.
  - apply (Unregister_unknown_script_noop "bat" [] sample_rat1). reflexivity.
Defined.

Lemma Unregister_entry_gone_or_nonempty_witness :
  map_index (Handlers (zqi (final (Unregister "rat1" [EventSay; EventDeath; EventTimer]
                                     sample_rat1_two_kinds)))) "rat1" = None.
Proof.
  destruct (Unregister_entry_gone_or_nonempty "rat1" [EventSay; EventDeath; EventTimer]
              sample_rat1_two_kinds
              {[ EventDeath := sample_sets_flag; EventSay := sample_declines ]})
    as (Hgone & _); [reflexivity|].
  apply Hgone. right. intros k [h Hk].
  destruct (decide (k = EventDeath)) as [->|Hd]; [right; left|].
  destruct (decide (k = EventSay)) as [->|Hs]; [left|].
  rewrite lookup_insert_ne, lookup_singleton_ne in Hk by done. discriminate.
Defined.

Lemma Register_then_Unregister_restores_witness :
  Handlers (zqi (final (Unregister "x" []
                   (final (Register "x" [AnyQuestEventType EventDeath] sample_rat1))))) =
  Handlers (zqi sample_rat1).
Proof.
  destruct (Register_then_Unregister_restores "x" [AnyQuestEventType EventDeath] sample_rat1)
    as (HH & _); [reflexivity|].
  rewrite HH. reflexivity.
Defined.

Lemma Invoke_nil_event_witness :
  out (Invoke "rat1" 2%positive sample_rat1) = Panics NilDereference ∧
  out (Invoke "bat" 2%positive sample_rat1) = Returns false.
Proof.
  split.
  - rewrite (Invoke_nil_event sample_rat1 "rat1" 2%positive); reflexivity.
  - rewrite (Invoke_nil_event sample_rat1 "bat" 2%positive); reflexivity.
Defined.

Lemma registry_calls_leave_memory_witness :
  mem (run sample_reload sample_zone_loaded) = sample_store.
Proof.
  rewrite (registry_calls_leave_memory sample_reload sample_zone_loaded); reflexivity.
Defined.

Lemma builders_panic_on_nil_witness :
  Reset 2%positive sample_fresh =
    {| trace := []; out := Panics NilDereference; final := sample_fresh |}.
Proof.
  destruct (builders_panic_on_nil sample_slack sample_fresh 2%positive) as (Hreset & _);
    [reflexivity|].
  exact Hreset.
Defined.

Lemma reset_and_populate_fills_witness :
  ∃ r', reset_and_populate sample_slack 1%positive EventSay (Some 3%positive) None
          0%N 5%N "" ["hello"]%string sample_fresh =
          {| trace := []; out := Returns 1%positive;
             final := set_record 1%positive r' sample_fresh |} ∧
        EventType r' = EventSay ∧ SpellID r' = 0%N ∧
        elems (StringArray r') = ["hello"]%string.
Proof.
  destruct (reset_and_populate_fills sample_slack sample_fresh 1%positive sample_event
              EventSay (Some 3%positive) None 0%N 5%N ""%string ["hello"]%string)
    as (r' & Hrun & Ht & _ & _ & Hid & _ & _ & Hs & _); [reflexivity|].
  exists r'. repeat split; assumption.
Defined.

Lemma Strings_reuses_backing_array_witness :
  ∃ r', evts (mem (final (Strings sample_slack 1%positive ["gnoll"]%string sample_fresh)))
          !! 1%positive = Some r' ∧
        backing (StringArray r') = ["gnoll"; "rat"; "old"]%string ∧
        cap (StringArray r') = 3.
Proof.
  destruct (Strings_reuses_backing_array sample_slack sample_fresh 1%positive sample_event
              ["gnoll"]%string)
    as (r' & Hr & _ & Hfit & _); [reflexivity|].
  exists r'. split; [exact Hr|]. apply Hfit. vm_compute. lia.
Defined.

Section register_panics.
Context {World : Type}.
Implicit Types (st : State World) (events pre rest : list (any World)).

(** A malformed sequence splits into a well-formed prefix and a rest that
    opens with the first argument that is wrong. *)
Lemma malformed_split events :
  malformed events = true →
  ∃ pre rest, events = pre ++ rest ∧ malformed pre = false ∧
    ((∃ a rest', rest = a :: rest' ∧ is_kind a = false) ∨
     (∃ k, rest = [AnyQuestEventType k]) ∨
     (∃ k b rest', rest = AnyQuestEventType k :: b :: rest' ∧ as_handler b = None)).
Proof.
  induction events as [|a|a b events IH] using list_pair_ind; intros Hm.
  - done.
  - exists [], [a]. split; [done|]. split; [done|].
    destruct a; eauto 6.
  - destruct (is_kind a) eqn:Ha.
    + destruct a as [|k|?|?|?]; try discriminate.
      destruct (as_handler b) as [h|] eqn:Hb.
      * rewrite (malformed_pair _ _ _ _ Hb) in Hm.
        destruct (IH Hm) as (pre & rest & -> & Hpre & Hrest).
        exists (AnyQuestEventType k :: b :: pre), rest.
        split; [done|]. split; [|done]. by rewrite (malformed_pair _ _ _ _ Hb).
      * exists [], (AnyQuestEventType k :: b :: events).
        split; [done|]. split; [done|]. right. right. eauto.
    + exists [], (a :: b :: events). split; [done|]. split; [done|]. left. eauto.
Qed.

(** X16: a panic of [Register] is always about an argument.  Its value
    is the message that argument [i] is not a [QuestEventType], or the
    message that argument [i] is not a valid [QuestHandler], for an index
    [i] inside the sequence, or the runtime's index-out-of-range error
    for the index one past the end of an odd-length sequence; it is never
    an assignment into a nil map. *)
Theorem Register_panic_is_argument_error name events st v :
  out (Register name events st) = Panics v →
  (∃ i, i < length events ∧
        (v = PanicString ("arg " +:+ pretty i +:+ " is not QuestEventType") ∨
         v = PanicString ("arg " +:+ pretty i +:+ " is not a valid QuestHandler"))) ∨
  (v = IndexOutOfRange (length events) (length events) ∧
   Nat.odd (length events) = true).
Proof.
  intros Hout.
  destruct (malformed events) eqn:Hm.
  2:{ destruct (Register_run name events st) as (_ & _ & Hret).
      rewrite Hm in Hret. congruence. }
  destruct (malformed_split _ Hm) as (pre & rest & -> & Hpre & Hrest).
  pose proof (leading_pairs_all _ Hpre) as Hlen.
  rewrite Register_out in Hout.
  erewrite Register_loop_skips_prefix in Hout;
    [|done|simpl; reflexivity|apply lookup_insert_eq].
  cbn [Nat.add] in Hout. rewrite length_app in *.
  destruct Hrest as [(a & rest' & -> & Ha)|[(k & ->)|(k & b & rest' & -> & Hb)]].
  - left. exists (length pre). split; [simpl; lia|]. left.
    destruct a; try discriminate; simpl in Hout; congruence.
  - right. simpl in Hout. cbn [length]. split; [congruence|].
    rewrite Nat.odd_add, <- Hlen, Nat.odd_mul. done.
  - left. exists (length pre + 1). split; [simpl; lia|]. right.
    destruct b; try discriminate; simpl in Hout; congruence.
Qed.
End register_panics.

Lemma Register_panic_is_argument_error_witness :
  (∃ i, i < 1 ∧
     (IndexOutOfRange 1 1 = PanicString ("arg " +:+ pretty i +:+ " is not QuestEventType") ∨
      IndexOutOfRange 1 1 = PanicString ("arg " +:+ pretty i +:+ " is not a valid QuestHandler"))) ∨
  (IndexOutOfRange 1 1 = IndexOutOfRange 1 1 ∧ Nat.odd 1 = true).
Proof.
  apply (Register_panic_is_argument_error "x" [AnyQuestEventType EventDeath] sample_fresh
           (IndexOutOfRange 1 1)).
  reflexivity.
Defined.
